(** * Verification of [src/utils/data_utils.py]

    A shallow embedding of the data-preparation module of the attention text
    classifier: the text normaliser, the corpus loader, the vocabulary
    builder, the sequence encoder, the embedding loader, the pipeline cache
    and the batch feeder.

    Conventions.
    - A Python [str] is a [string]: a sequence of 8-bit characters, i.e. of
      code points 0..255.  The corpus is decoded with
      [DATASET_ENCODING = "ISO-8859-1"], for which this is exact.
    - Python integers are [Z]; a [float64] is a primitive [float].
    - A call that can raise returns a [result]; a function that reads or
      changes the outside world (file system, NumPy's global generator,
      downloaded files, NLTK's data) takes a [World] and, when it changes
      it, returns the new one.
    - The third-party libraries are modelled after their documented
      behaviour in the modules [Py], [Re], [Pd], [Keras], [TfData], [Os] and
      [Sklearn];
      what they compute by algorithms of their own (the Snowball stemmer,
      the parsing of a float literal, the pseudo-random generator, pickle's
      byte format), and what the memory of a fresh array holds, is a field
      of the class [Runtime]. *)

From Stdlib Require Import ZArith List Ascii String Floats Lia.
From stdpp Require Import base gmap strings list.

Local Open Scope Z_scope.

(** ** Exceptions and results *)

Inductive exn : Type :=
| AssertionError
| KeyError
| IndexError
| ValueError
| LookupError
| OSError
| InvalidArgumentError.

Inductive result (A : Type) : Type :=
| Ok (a : A)
| Raise (e : exn).
Arguments Ok {A} a.
Arguments Raise {A} e.

Definition rbind {A B} (r : result A) (f : A → result B) : result B :=
  match r with
  | Ok a => f a
  | Raise e => Raise e
  end.

Definition is_ok {A} (r : result A) : bool :=
  match r with Ok _ => true | Raise _ => false end.

#[global] Instance result_mret : MRet result := fun A => Ok.
#[global] Instance result_mbind : MBind result := fun A B f r => rbind r f.

(** [[f(x) for x in l]], stopping at the first call that raises. *)
Fixpoint traverse {A B} (f : A → result B) (l : list A) : result (list B) :=
  match l with
  | [] => Ok []
  | x :: l' => y ← f x; ys ← traverse f l'; Ok (y :: ys)
  end.

(** ** Python's [str] methods used by the module *)

Module Py.

Definition code (c : ascii) : N := N_of_ascii c.

(** [str.isspace] on one character, for code points below 256. *)
Definition isspace (c : ascii) : bool :=
  let n := code c in
  ((9 <=? n) && (n <=? 13) || (28 <=? n) && (n <=? 32)
   || (n =? 133) || (n =? 160))%N.

(** [str.isdecimal] on one character: below 256 only the ASCII digits. *)
Definition isdigit (c : ascii) : bool :=
  let n := code c in ((48 <=? n) && (n <=? 57))%N.

Definition lower_char (c : ascii) : ascii :=
  let n := code c in
  if ((65 <=? n) && (n <=? 90)
      || (192 <=? n) && (n <=? 222) && negb (n =? 215))%N
  then ascii_of_N (n + 32) else c.

(** [s.lower()] *)
Fixpoint lower (s : string) : string :=
  match s with
  | EmptyString => EmptyString
  | String c s' => String (lower_char c) (lower s')
  end.

Definition nonempty (s : string) : bool :=
  match s with EmptyString => false | String _ _ => true end.

(** The pieces of [s] between the characters of class [sep], empty pieces
    included, as [s.split(sep)] gives them for a one-character [sep]. *)
Fixpoint pieces (sep : ascii → bool) (s : string) : list string :=
  match s with
  | EmptyString => [EmptyString]
  | String c s' =>
      if sep c then EmptyString :: pieces sep s'
      else match pieces sep s' with
           | w :: ws => String c w :: ws
           | [] => [String c EmptyString]
           end
  end.

(** [s.split()]: the maximal runs of characters that are not blank. *)
Definition split (s : string) : list string :=
  List.filter nonempty (pieces isspace s).

(** [sep.join(l)] *)
Fixpoint join (sep : string) (l : list string) : string :=
  match l with
  | [] => EmptyString
  | [w] => w
  | w :: ws => w +:+ sep +:+ join sep ws
  end.

Fixpoint lstrip (s : string) : string :=
  match s with
  | EmptyString => EmptyString
  | String c s' => if isspace c then lstrip s' else s
  end.

Fixpoint rstrip (s : string) : string :=
  match s with
  | EmptyString => EmptyString
  | String c s' =>
      match rstrip s' with
      | EmptyString => if isspace c then EmptyString else String c EmptyString
      | r => String c r
      end
  end.

(** [s.strip()] *)
Definition strip (s : string) : string := rstrip (lstrip s).

(** [os.path.join(a, b)] for a relative [b] (POSIX). *)
Definition path_join (a b : string) : string :=
  match String.length a with
  | O => b
  | S n =>
      if String.eqb (String.substring n 1 a) "/" then a +:+ b
      else a +:+ "/" +:+ b
  end.

End Py.

(** ** The fragment of [re] used by the module

    A pattern is matched the way [re] matches it: by backtracking, an
    alternation trying its left branch first and every repetition greedy. *)

Module Re.

Inductive regex : Type :=
| Chr (p : ascii → bool)              (* one character of a class *)
| Lit (s : string)                    (* a literal text *)
| Opt (c : ascii)                     (* c? *)
| Rep (min : nat) (p : ascii → bool)  (* p{min,} ; p+ is Rep 1 p *)
| Cat (r1 r2 : regex)
| Alt (r1 r2 : regex).

Fixpoint strip_prefix (l s : string) : option string :=
  match l, s with
  | EmptyString, _ => Some s
  | String a l', String b s' =>
      if Ascii.eqb a b then strip_prefix l' s' else None
  | String _ _, EmptyString => None
  end.

(** Greedy repetition: take one more character of the class when that
    leads to a match, stop here otherwise ([n] characters taken so far). *)
Fixpoint rep_greedy {R} (p : ascii → bool) (min n : nat) (s : string)
    (k : string → option R) : option R :=
  let stop := if (min <=? n)%nat then k s else None in
  match s with
  | String c s' =>
      if p c then
        match rep_greedy p min (S n) s' k with
        | Some r => Some r
        | None => stop
        end
      else stop
  | EmptyString => stop
  end.

(** [match_k r s k]: match [r] at the start of [s] and hand the rest of
    the text to the continuation [k]; the first success wins. *)
Fixpoint match_k {R} (r : regex) (s : string) (k : string → option R)
    : option R :=
  match r with
  | Chr p =>
      match s with
      | String c s' => if p c then k s' else None
      | EmptyString => None
      end
  | Lit l =>
      match strip_prefix l s with
      | Some s' => k s'
      | None => None
      end
  | Opt c =>
      let skip := k s in
      match s with
      | String c' s' =>
          if Ascii.eqb c c' then
            match k s' with Some x => Some x | None => skip end
          else skip
      | EmptyString => skip
      end
  | Rep min p => rep_greedy p min 0 s k
  | Cat r1 r2 => match_k r1 s (fun s' => match_k r2 s' k)
  | Alt r1 r2 =>
      match match_k r1 s k with
      | Some x => Some x
      | None => match_k r2 s k
      end
  end.

(** The text left after the match of [r] at the start of [s]. *)
Definition match_at (r : regex) (s : string) : option string :=
  match_k r s Some.

Definition matched (s rest : string) : string :=
  String.substring 0 (String.length s - String.length rest) s.

(** [re.sub]: scan from the left; where the pattern matches, emit the
    replacement of the matched text and go on after the match; elsewhere
    copy one character.  No pattern of the module matches the empty text;
    an empty match is treated as no match. *)
Fixpoint sub_from (fuel : nat) (r : regex) (repl : string → string)
    (s : string) : string :=
  match fuel, s with
  | S fuel', String c s' =>
      match match_at r s with
      | Some rest =>
          match matched s rest with
          | EmptyString => String c (sub_from fuel' r repl s')
          | m => repl m +:+ sub_from fuel' r repl rest
          end
      | None => String c (sub_from fuel' r repl s')
      end
  | _, _ => s
  end.

(** [re.sub(pattern, repl, s)] with the replacement a function of the
    matched text. *)
Definition sub_with (r : regex) (repl : string → string) (s : string) : string :=
  sub_from (String.length s) r repl s.

(** [re.sub(pattern, repl, s)] with a replacement that has no group
    reference. *)
Definition sub (r : regex) (repl : string) (s : string) : string :=
  sub_with r (fun _ => repl) s.

End Re.

(** ** Values read from the CSV files *)

(** A Python object, as [text_to_wordlist] can be given one: a [str], or an
    object of another type. *)
Inductive PyObj : Type :=
| PyStr (s : string)
| PyFloat (x : float)
| PyInt (z : Z)
| PyBool (b : bool)
| PyBytes (b : string)
| PyNone
| PyObject (type_name : string).   (* an instance of any other type *)

(** What [pd.read_csv] puts in a cell of the [text] column that is empty:
    the float NaN. *)
Definition NaN : PyObj := PyFloat nan.

Definition is_str (x : PyObj) : bool :=
  match x with PyStr _ => true | _ => false end.

Module Pd.

(** One line of a data frame with the columns [DATASET_COLUMNS]; [T] is
    the type of the cells of the [text] column. *)
Record Row (T : Type) : Type := mkRow {
  target : Z;
  ids : Z;
  date : string;
  flag : string;
  user : string;
  text : T
}.
Arguments mkRow {T}.
Arguments target {T}.
Arguments ids {T}.
Arguments date {T}.
Arguments flag {T}.
Arguments user {T}.
Arguments text {T}.

Abbreviation DataFrame T := (list (Row T)) (only parsing).

(** [df.text = df.text.apply(f)] on one line. *)
Definition with_text {T U} (r : Row T) (t : U) : Row U :=
  mkRow (target r) (ids r) (date r) (flag r) (user r) t.

(** [series.replace(a, b)] on one cell of a column of integers. *)
Definition replace (a b : Z) (v : Z) : Z := if v =? a then b else v.

(** [df.target.replace(a, b, inplace=True)] on one line; [df.target] is the
    column of the frame itself, so the frame is changed. *)
Definition replace_target {T} (a b : Z) (r : Row T) : Row T :=
  mkRow (replace a b (target r)) (ids r) (date r) (flag r) (user r) (text r).

End Pd.

(** ** [tf.keras.preprocessing]: the tokenizer and sequence padding *)

Module Keras.

(** The default [filters] of the tokenizer:
    the punctuation of ASCII without the apostrophe, tab and newline. *)
Definition is_filter (c : ascii) : bool :=
  let n := Py.code c in
  ((n =? 9) || (n =? 10)
   || (33 <=? n) && (n <=? 47) && negb (n =? 39)
   || (58 <=? n) && (n <=? 64)
   || (91 <=? n) && (n <=? 96)
   || (123 <=? n) && (n <=? 126))%N.

(** [text.translate(...)]: every filtered character becomes the split
    character, a space. *)
Fixpoint translate (s : string) : string :=
  match s with
  | EmptyString => EmptyString
  | String c s' => String (if is_filter c then " "%char else c) (translate s')
  end.

Definition is_split (c : ascii) : bool := Ascii.eqb c " ".

(** [text_to_word_sequence(text)] with the default arguments. *)
Definition text_to_word_sequence (text : string) : list string :=
  List.filter Py.nonempty (Py.pieces is_split (translate (Py.lower text))).

(** The fields of a [Tokenizer] that the module reads. [word_counts] is an
    ordered dictionary: the words in the order they were first met. *)
Record Tokenizer : Type := mkTokenizer {
  num_words : option Z;
  document_count : Z;
  word_counts : list (string * Z);
  word_index : gmap string Z;
  index_word : gmap Z string
}.

(** [Tokenizer(num_words=n)] *)
Definition new (n : Z) : Tokenizer :=
  mkTokenizer (Some n) 0 [] ∅ ∅.

(** [word_counts[w] += 1], or [word_counts[w] = 1] for a new word. *)
Fixpoint bump (w : string) (wc : list (string * Z)) : list (string * Z) :=
  match wc with
  | [] => [(w, 1)]
  | (v, n) :: rest =>
      if String.eqb v w then (v, n + 1) :: rest else (v, n) :: bump w rest
  end.

Definition count_text (wc : list (string * Z)) (text : string) : list (string * Z) :=
  foldl (fun wc w => bump w wc) wc (text_to_word_sequence text).

(** [wcounts.sort(key=lambda x: x[1], reverse=True)]: by decreasing count,
    words of equal count keeping their order. *)
Fixpoint insert_desc (x : string * Z) (l : list (string * Z)) : list (string * Z) :=
  match l with
  | [] => [x]
  | y :: l' => if x.2 <? y.2 then y :: insert_desc x l' else x :: l
  end.

Definition sort_desc (l : list (string * Z)) : list (string * Z) :=
  foldr insert_desc [] l.

(** [dict(pairs)]: a later pair overrides an earlier one with its key. *)
Definition dict `{Countable K} {V} (pairs : list (K * V)) : gmap K V :=
  foldl (fun m kv => <[kv.1 := kv.2]> m) ∅ pairs.

(** [zip(sorted_voc, range(1, len(sorted_voc) + 1))] *)
Definition enumerate_from_1 (sorted_voc : list string) : list (string * Z) :=
  zip sorted_voc (seqZ 1 (Z.of_nat (length sorted_voc))).

(** [tokenizer.fit_on_texts(texts)] without an [oov_token]. The items of
    [word_index] are the pairs it was built from. *)
Definition fit_on_texts (tk : Tokenizer) (texts : list string) : Tokenizer :=
  let wc := foldl count_text (word_counts tk) texts in
  let sorted_voc := (sort_desc wc).*1 in
  let items := enumerate_from_1 sorted_voc in
  mkTokenizer (num_words tk)
              (document_count tk + Z.of_nat (length texts))
              wc
              (dict items)
              (dict (prod_swap <$> items)).

(** [if num_words and i >= num_words]: the index is out of the cap. *)
Definition capped (nw : option Z) (i : Z) : bool :=
  match nw with
  | Some n => negb (n =? 0) && (n <=? i)
  | None => false
  end.

(** One text of [texts_to_sequences], without an [oov_token]: the indices
    of its known words that are under the cap. *)
Definition text_to_sequence (tk : Tokenizer) (text : string) : list Z :=
  omap (fun w =>
          match word_index tk !! w with
          | Some i => if capped (num_words tk) i then None else Some i
          | None => None
          end)
       (text_to_word_sequence text).

Definition texts_to_sequences (tk : Tokenizer) (texts : list string) : list (list Z) :=
  text_to_sequence tk <$> texts.

(** The conversion to [dtype='int32']. *)
Definition int32 (z : Z) : Z := (z + 2 ^ 31) mod 2 ^ 32 - 2 ^ 31.

(** [pad_sequences(sequences, maxlen=maxlen)] for [maxlen >= 1], with the
    defaults [padding='pre'], [truncating='pre'], [value=0]: of each
    sequence the last [maxlen] entries, zeros in front. *)
Definition pad_sequence (maxlen : nat) (s : list Z) : list Z :=
  let trunc := int32 <$> drop (length s - maxlen) s in
  replicate (maxlen - length trunc) 0 ++ trunc.

Definition pad_sequences (sequences : list (list Z)) (maxlen : nat) : list (list Z) :=
  pad_sequence maxlen <$> sequences.

End Keras.

(** ** [tf.data]: a dataset is the description of an input pipeline *)

Module TfData.

(** The argument of [from_tensor_slices]: an array of rows, or the pair
    of it and of a column of labels. *)
Inductive Tensors : Type :=
| Features (features : list (list Z))
| FeaturesLabels (features : list (list Z)) (labels : list Z).

(** The pipelines the module builds, as [tf.data] describes them once it
    has accepted their arguments. *)
Inductive Dataset : Type :=
| SlicesOf (input_data : Tensors)
| ShuffleOf (d : Dataset) (buffer_size seed : Z)
| RepeatOf (d : Dataset)
| BatchOf (d : Dataset) (batch_size : Z).

(** [tf.data.Dataset.from_tensor_slices(t)]: the arrays of a pair must have
    as many lines. *)
Definition from_tensor_slices (t : Tensors) : result Dataset :=
  match t with
  | Features _ => Ok (SlicesOf t)
  | FeaturesLabels features labels =>
      if (length features =? length labels)%nat then Ok (SlicesOf t)
      else Raise ValueError
  end.

(** [d.shuffle(buffer_size, seed)]: the buffer size must be positive, or be
    [UNKNOWN_CARDINALITY], which is -2, for a buffer of the whole dataset. *)
Definition shuffle (d : Dataset) (buffer_size seed : Z) : result Dataset :=
  if (0 <? buffer_size) || (buffer_size =? -2) then Ok (ShuffleOf d buffer_size seed)
  else Raise InvalidArgumentError.

(** [d.repeat()] *)
Definition repeat (d : Dataset) : result Dataset := Ok (RepeatOf d).

(** [d.batch(batch_size)]: the batch size must be positive. *)
Definition batch (d : Dataset) (batch_size : Z) : result Dataset :=
  if 0 <? batch_size then Ok (BatchOf d batch_size)
  else Raise InvalidArgumentError.

(** What an iteration yields: a slice of the input, or a batch. *)
#[warnings="-register-all"]
Inductive Element : Type :=
| Example (x : list Z)
| Labelled (x : list Z) (y : Z)
| Batch (xs : list Element).

Definition slices (t : Tensors) : list Element :=
  match t with
  | Features features => Example <$> features
  | FeaturesLabels features labels => zip_with Labelled features labels
  end.







(** Groups of [n] consecutive elements, the last one possibly shorter. *)
Fixpoint chunks {A} (fuel n : nat) (xs : list A) : list (list A) :=
  match fuel, xs with
  | S fuel', _ :: _ => take n xs :: chunks fuel' n (drop n xs)
  | _, _ => []
  end.

(** The elements of one pass, in order, for a pipeline without a random
    or endless stage. *)
Fixpoint elements (d : Dataset) : option (list Element) :=
  match d with
  | SlicesOf t => Some (slices t)
  | ShuffleOf _ _ _ => None
  | RepeatOf _ => None
  | BatchOf d n =>
      xs ← elements d;
      Some (Batch <$> chunks (length xs) (Z.to_nat n) xs)
  end.

End TfData.

(** ** What the runtime provides *)

(** The tuple [get_data] writes to [data.pkl]:
    [(train_X, test_X, train_y, test_y, inf_text, tokenizer)]. *)
Definition Pickle : Type :=
  list (list Z) * list (list Z) * list Z * list Z * list (list Z) * Keras.Tokenizer.

(** The tuple [get_data] returns:
    [(train_X, train_y, test_X, test_y, inf_text, tokenizer)]. *)
Definition Artifacts : Type :=
  list (list Z) * list Z * list (list Z) * list Z * list (list Z) * Keras.Tokenizer.

(** The tuple returned for the tuple pickled. *)
Definition artifacts_of (x : Pickle) : Artifacts :=
  let '(train_X, test_X, train_y, test_y, inf_text, tokenizer) := x in
  (train_X, train_y, test_X, test_y, inf_text, tokenizer).

Class Runtime : Type := {
  (** [SnowballStemmer("english").stem] *)
  stem : string → string;
  (** The value [np.asarray(..., dtype="float32")] gives to one literal;
      [None] when NumPy rejects it. *)
  float32_of_string : string → option float;
  (** The state of NumPy's global generator. *)
  rng_state : Type;
  (** [np.random.uniform(low, high, size)] *)
  uniform : rng_state → float → float → nat → list float * rng_state;
  (** [rng.permutation(n)] *)
  permutation : rng_state → nat → list nat * rng_state;
  (** What the memory of a fresh array holds at a line and a column. *)
  uninitialised : nat → nat → float;
  (** The bytes of a pickle file, [pickle.dump] and [pickle.load]. *)
  bytes : Type;
  pickle_dumps : Pickle → bytes;
  pickle_loads : bytes → option Pickle
}.

(** NumPy's contract for [uniform(-1, 1, n)]: [n] samples of [[-1, 1)]. *)
Definition in_unit_interval (x : float) : bool :=
  (PrimFloat.leb (-1) x && PrimFloat.ltb x 1)%float.

Definition uniform_spec `{Runtime} : Prop :=
  ∀ (s : rng_state) (n : nat),
    length (uniform s (-1) 1 n).1 = n
    ∧ Forall (fun x => in_unit_interval x = true) (uniform s (-1) 1 n).1.

(** [pickle.load] reads back what [pickle.dump] wrote. *)
Definition pickle_spec `{Runtime} : Prop :=
  ∀ x : Pickle, pickle_loads (pickle_dumps x) = Some x.

(** ** The outside world *)

Inductive Node `{Runtime} : Type :=
| Dir
| File (content : bytes).

Record World `{Runtime} : Type := mkWorld {
  (** The file system, by path. *)
  fs : gmap string Node;
  (** NumPy's global generator. *)
  np_random : rng_state;
  (** NLTK's list of English stop words; [None] when it is not installed. *)
  nltk_stopwords : option (list string);
  (** What [pd.read_csv] reads from [TRAIN_FILE] and [TEST_FILE], and the
      lines of [EMBEDDING_FILE], at the paths [maybe_download] returns;
      [None] for a file that cannot be fetched.  The files are taken as
      they are once fetched: what [get_file] writes into its cache when it
      has to download one is not part of [fs]. *)
  train_csv : option (Pd.DataFrame PyObj);
  test_csv : option (Pd.DataFrame PyObj);
  embedding_txt : option (list string)
}.
Arguments mkWorld {_}.

Definition set_fs `{Runtime} (w : World) (f : gmap string Node) : World :=
  mkWorld f (np_random w) (nltk_stopwords w) (train_csv w) (test_csv w) (embedding_txt w).

Definition set_np_random `{Runtime} (w : World) (s : rng_state) : World :=
  mkWorld (fs w) s (nltk_stopwords w) (train_csv w) (test_csv w) (embedding_txt w).

(** A computation that may raise and may change the world. *)
Definition IO `{Runtime} (A : Type) : Type := World → result A * World.

Definition io_ret `{Runtime} {A} (a : A) : IO A := fun w => (Ok a, w).

Definition io_raise `{Runtime} {A} (e : exn) : IO A := fun w => (Raise e, w).

Definition io_bind `{Runtime} {A B} (m : IO A) (f : A → IO B) : IO B :=
  fun w =>
    match m w with
    | (Ok a, w') => f a w'
    | (Raise e, w') => (Raise e, w')
    end.

(** A call that only reads the world. *)
Definition io_read `{Runtime} {A} (f : World → result A) : IO A :=
  fun w => (f w, w).

#[global] Instance io_mret `{Runtime} : MRet IO := fun A => io_ret.
#[global] Instance io_mbind `{Runtime} : MBind IO := fun A B f m => io_bind m f.

Module Os.

(** [os.path.exists(path)] *)
Definition path_exists `{Runtime} (w : World) (path : string) : bool :=
  bool_decide (is_Some (fs w !! path)).

(** [os.makedirs(path)]: the directory must be new. Only the directory
    itself is recorded, not the parents created on the way. *)
Definition makedirs `{Runtime} (path : string) : IO unit :=
  fun w =>
    if Py.nonempty path && negb (path_exists w path)
    then (Ok tt, set_fs w (<[path := Dir]> (fs w)))
    else (Raise OSError, w).

(** [open(path, "wb")] and the write of [content]. *)
Definition write_file `{Runtime} (path : string) (content : bytes) : IO unit :=
  fun w =>
    match fs w !! path with
    | Some Dir => (Raise OSError, w)
    | _ => (Ok tt, set_fs w (<[path := File content]> (fs w)))
    end.

(** [open(path, "rb")] and the read of the whole file. *)
Definition read_file `{Runtime} (path : string) : IO bytes :=
  fun w =>
    match fs w !! path with
    | Some (File content) => (Ok content, w)
    | _ => (Raise OSError, w)
    end.

End Os.

(** ** [sklearn.model_selection.train_test_split] *)

Module Sklearn.

(** [ceil(0.25 * n)] *)
Definition n_test (n : nat) : nat := ((n + 3) / 4)%nat.

(** [a[idx]] for an array of indices within range. *)
Definition take_rows {A} (a : list A) (idx : list nat) : list A :=
  omap (fun i => a !! i) idx.

(** The split for the permutation [perm] of [range(len(a))]: its first
    [n_test] indices are the test set, the rest the training set. *)
Definition split_with {A B} (perm : list nat) (a : list A) (b : list B)
    : list A * list A * list B * list B :=
  let n := length a in
  let ind_test := take (n_test n) perm in
  let ind_train := take (n - n_test n) (drop (n_test n) perm) in
  (take_rows a ind_train, take_rows a ind_test,
   take_rows b ind_train, take_rows b ind_test).

(** [train_test_split(a, b, test_size=0.25)]: the arrays must have as
    many lines and the training set must not be empty; the permutation
    comes from NumPy's global generator. *)
Definition train_test_split `{Runtime} {A B} (a : list A) (b : list B)
    : IO (list A * list A * list B * list B) :=
  fun w =>
    let n := length a in
    if negb (length b =? n)%nat || (n - n_test n =? 0)%nat
    then (Raise ValueError, w)
    else
      let '(perm, s) := permutation (np_random w) n in
      (Ok (split_with perm a b), set_np_random w s).

End Sklearn.

(** ** The module [data_utils] *)

Definition VOCAB_SIZE : Z := 20000.
Definition EMBEDDING_SIZE : nat := 50.

(** *** The text normaliser *)

Definition nonspace (c : ascii) : bool := negb (Py.isspace c).

(** The class [[A-Za-z^,!.\/'+-=]]: the letters, six marks, and the range
    from [+] to [=] (which holds the digits, [:], [;] and [<]). *)
Definition kept (c : ascii) : bool :=
  let n := Py.code c in
  ((65 <=? n) && (n <=? 90) || (97 <=? n) && (n <=? 122)
   || (n =? 94) || (n =? 44) || (n =? 33) || (n =? 46) || (n =? 47) || (n =? 39)
   || (43 <=? n) && (n <=? 61))%N.

(** [@\S+|https?:\S+|http?:\S] *)
Definition mention_or_link : Re.regex :=
  Re.Alt (Re.Cat (Re.Lit "@") (Re.Rep 1 nonspace))
   (Re.Alt (Re.Cat (Re.Lit "http") (Re.Cat (Re.Opt "s") (Re.Cat (Re.Lit ":") (Re.Rep 1 nonspace))))
           (Re.Cat (Re.Lit "htt") (Re.Cat (Re.Opt "p") (Re.Cat (Re.Lit ":") (Re.Chr nonspace))))).

(** [(\d+)(k)], and its replacement [\g<1>000]: the digits of the match,
    which are the match without its last character, then [000]. *)
Definition digits_k : Re.regex := Re.Cat (Re.Rep 1 Py.isdigit) (Re.Lit "k").

Definition thousands (m : string) : string :=
  String.substring 0 (String.length m - 1) m +:+ "000".

(** [\0s]: the character of code 0, then [s]. *)
Definition nul_s : string := String "000"%char "s".

Definition text_to_wordlist `{Runtime} (world : World) (text : PyObj)
    (remove_stopwords stem_words : bool) : result string :=
  let text := match text with PyStr s => s | _ => "unk" end in
  let text := Py.split (Py.lower text) in
  text ← (if remove_stopwords then
            match nltk_stopwords world with
            | Some words =>
                let stops : gset string := list_to_set words in
                Ok (List.filter (fun w => negb (bool_decide (w ∈ stops))) text)
            | None => Raise LookupError
            end
          else Ok text);
  let text := Py.join " " text in
  (* Clean the text *)
  let text := Re.sub mention_or_link " " text in
  let text := Re.sub (Re.Chr Py.isdigit) "" text in
  let text := Re.sub (Re.Chr (fun c => negb (kept c))) " " text in
  let text := Re.sub (Re.Lit "what's") "what is " text in
  let text := Re.sub (Re.Lit "that's") "that is " text in
  let text := Re.sub (Re.Lit "'s") " " text in
  let text := Re.sub (Re.Lit "'ve") " have " text in
  let text := Re.sub (Re.Lit "can't") "cannot " text in
  let text := Re.sub (Re.Lit "n't") " not " text in
  let text := Re.sub (Re.Lit "i'm") "i am " text in
  let text := Re.sub (Re.Lit "'re") " are " text in
  let text := Re.sub (Re.Lit "'d") " would " text in
  let text := Re.sub (Re.Lit "'ll") " will " text in
  let text := Re.sub (Re.Lit ",") " " text in
  let text := Re.sub (Re.Lit ".") " " text in
  let text := Re.sub (Re.Lit "!") " ! " text in
  let text := Re.sub (Re.Lit "/") " " text in
  let text := Re.sub (Re.Lit "^") " ^ " text in
  let text := Re.sub (Re.Lit "+") " + " text in
  let text := Re.sub (Re.Lit "-") " - " text in
  let text := Re.sub (Re.Lit "=") " = " text in
  let text := Re.sub (Re.Lit "'") " " text in
  let text := Re.sub_with digits_k thousands text in
  let text := Re.sub (Re.Lit ":") " : " text in
  let text := Re.sub (Re.Lit " e g ") " eg " text in
  let text := Re.sub (Re.Lit " b g ") " bg " text in
  let text := Re.sub (Re.Lit " u s ") " american " text in
  let text := Re.sub (Re.Lit nul_s) "0" text in
  let text := Re.sub (Re.Lit " 9 11 ") "911" text in
  let text := Re.sub (Re.Lit "e - mail") "email" text in
  let text := Re.sub (Re.Lit "j k") "jk" text in
  let text := Re.sub (Re.Rep 2 Py.isspace) " " text in
  (* Optionally, shorten words to their stems *)
  let text := if stem_words then Py.join " " (stem <$> Py.split text) else text in
  Ok (Py.strip text).

(** *** The corpus loader *)

(** [df.text = df.text.progress_apply(lambda x: text_to_wordlist(x))] *)
Definition clean_text `{Runtime} (w : World) (df : Pd.DataFrame PyObj)
    : result (Pd.DataFrame string) :=
  traverse (fun r => t ← text_to_wordlist w (Pd.text r) false false;
                     Ok (Pd.with_text r t)) df.

Definition load_data `{Runtime} (w : World)
    : result (Pd.DataFrame string * Pd.DataFrame string) :=
  (* Maybe download training data, read data into dataframe *)
  match train_csv w, test_csv w with
  | Some df, Some inf_df =>
      (* Clean dataset *)
      rbind (clean_text w df) (fun df =>
      rbind (clean_text w inf_df) (fun inf_df =>
      (* Replace 4 with 1 *)
      let df := Pd.replace_target 4 1 <$> df in
      Ok (df, inf_df)))
  | _, _ => Raise OSError
  end.

(** *** The vocabulary builder and the sequence encoder *)

Definition get_tokenizer (text : list string) : Keras.Tokenizer :=
  Keras.fit_on_texts (Keras.new VOCAB_SIZE) text.

Definition get_padded_sequences (tokenizer : Keras.Tokenizer) (text : list string)
    : list (list Z) :=
  let sequences := Keras.texts_to_sequences tokenizer text in
  Keras.pad_sequences sequences 50.

(** *** The pipeline cache *)

Record Params : Type := mkParams { data_dir : string }.

Definition get_data `{Runtime} (params : Params) : IO Artifacts :=
  fun w =>
    (* Load data if saved previously *)
    if Os.path_exists w (data_dir params) then
      (f ← Os.read_file (Py.path_join (data_dir params) "data.pkl");
       match pickle_loads f with
       | Some (train_X, test_X, train_y, test_y, inf_text, tokenizer) =>
           mret (train_X, train_y, test_X, test_y, inf_text, tokenizer)
       | None => io_raise ValueError
       end) w
    (* Clean data and save *)
    else
      ('(df, inf_df) ← io_read load_data;
       let tokenizer := get_tokenizer (Pd.text <$> df) in
       let text := get_padded_sequences tokenizer (Pd.text <$> df) in
       let inf_text := get_padded_sequences tokenizer (Pd.text <$> inf_df) in
       '(train_X, test_X, train_y, test_y) ←
         Sklearn.train_test_split text (Pd.target <$> df);
       Os.makedirs (data_dir params);;
       Os.write_file (Py.path_join (data_dir params) "data.pkl")
         (pickle_dumps (train_X, test_X, train_y, test_y, inf_text, tokenizer));;
       mret (train_X, train_y, test_X, test_y, inf_text, tokenizer)) w.

(** *** The embedding loader *)

(** One line of the embedding file: the word, then its coefficients. *)
Definition parse_line `{Runtime} (line : string) : result (string * list float) :=
  match Py.split line with
  | [] => Raise IndexError
  | word :: values =>
      match mapM float32_of_string values with
      | Some coefs => Ok (word, coefs)
      | None => Raise ValueError
      end
  end.

(** The loop over the lines of the file that fills [embeddings_index]. *)
Fixpoint read_embeddings `{Runtime} (lines : list string)
    (embeddings_index : gmap string (list float)) : result (gmap string (list float)) :=
  match lines with
  | [] => Ok embeddings_index
  | line :: lines' =>
      match parse_line line with
      | Ok (word, coefs) => read_embeddings lines' (<[word := coefs]> embeddings_index)
      | Raise e => Raise e
      end
  end.

(** What NumPy stores by [embedding[i] = v] in a line of 50 columns: [v]
    itself when it has 50 entries, its entry in every column when it has
    one; any other length is an error of broadcasting. *)
Definition broadcast (v : list float) : option (list float) :=
  if (length v =? 50)%nat then Some v
  else match v with
       | [x] => Some (replicate 50 x)
       | _ => None
       end.

(** The loop [for i in range(1, VOCAB_SIZE + 1)] over the indices [todo]
    that are left. *)
Fixpoint fill_embedding `{Runtime} (tokenizer : Keras.Tokenizer)
    (embeddings_index : gmap string (list float)) (todo : list Z)
    (embedding : list (list float)) : IO (list (list float)) :=
  match todo with
  | [] => mret embedding
  | i :: todo' =>
      match Keras.index_word tokenizer !! i with
      | None => io_raise KeyError
      | Some word =>
          match embeddings_index !! word ≫= broadcast with
          | Some row =>
              fill_embedding tokenizer embeddings_index todo'
                (<[Z.to_nat (i - 1) := row]> embedding)
          | None =>
              fun w =>
                let '(v, s) := uniform (np_random w) (-1) 1 EMBEDDING_SIZE in
                match broadcast v with
                | Some row =>
                    fill_embedding tokenizer embeddings_index todo'
                      (<[Z.to_nat (i - 1) := row]> embedding) (set_np_random w s)
                | None => (Raise ValueError, set_np_random w s)
                end
          end
      end
  end.

(** [np.empty((rows, cols))]: an array of that shape whose content is
    whatever the memory holds. *)
Definition np_empty `{Runtime} (rows cols : nat) : list (list float) :=
  (fun r => uninitialised r <$> seq 0 cols) <$> seq 0 rows.

Definition get_embedding_matrix `{Runtime} (tokenizer : Keras.Tokenizer)
    : IO (list (list float)) :=
  (* maybe_download(EMBEDDING_FILE, EMBEDDING_URL) and open *)
  lines ← io_read (fun w => match embedding_txt w with
                            | Some lines => Ok lines
                            | None => Raise OSError
                            end);
  embeddings_index ← io_read (fun _ => read_embeddings lines ∅);
  let embedding := np_empty (Z.to_nat VOCAB_SIZE) 50 in
  fill_embedding tokenizer embeddings_index (seqZ 1 VOCAB_SIZE) embedding.

(** *** The batch feeder *)

Definition input_fn (features : list (list Z)) (labels : option (list Z))
    (batch_size : Z) (buffer_size : option Z) : result TfData.Dataset :=
  match buffer_size with
  | None => Raise AssertionError
  | Some buffer_size =>
      let input_data :=
        match labels with
        | Some labels => TfData.FeaturesLabels features labels
        | None => TfData.Features features
        end in
      (* Convert inputs into tf.data.Dataset *)
      dataset ← TfData.from_tensor_slices input_data;
      (* Optionally shuffle and repeat *)
      dataset ← (if bool_decide (is_Some labels)
                 then dataset ← TfData.shuffle dataset buffer_size 0;
                      TfData.repeat dataset
                 else Ok dataset);
      (* Batch dataset *)
      TfData.batch dataset batch_size
  end.

(** ** Properties that the claims are stated with *)

(** The distinct tokens of a corpus. *)
Definition vocabulary (corpus : list string) : gset string :=
  list_to_set (corpus ≫= Keras.text_to_word_sequence).

(** The first field of a line of the embedding file. *)
Definition line_word (line : string) : option string := head (Py.split line).

(** A line of an embedding file of dimension [EMBEDDING_SIZE]: a word, then
    [EMBEDDING_SIZE] literals that NumPy accepts. *)
Definition is_embedding_line `{Runtime} (line : string) : bool :=
  match parse_line line with
  | Ok (_, coefs) => (length coefs =? EMBEDDING_SIZE)%nat
  | Raise _ => false
  end.

(** The states that the generator goes through from the state [s0] by
    calls of [np.random.uniform(-1, 1, (EMBEDDING_SIZE))]. *)
Inductive draws_from `{Runtime} (s0 : rng_state) : rng_state → Prop :=
| draws_none : draws_from s0 s0
| draws_more (s : rng_state) :
    draws_from s0 s → draws_from s0 (uniform s (-1) 1 EMBEDDING_SIZE).2.

(** The line [i - 1] of the matrix when the loop of [get_embedding_matrix],
    started with the generator in the state [s0], is over: the vector of
    the word of index [i] from [embeddings_index] as NumPy stores it, or
    else what [np.random.uniform(-1, 1, (EMBEDDING_SIZE))] returned in a
    state that the loop reached. *)
Definition row_of `{Runtime} (tokenizer : Keras.Tokenizer)
    (embeddings_index : gmap string (list float)) (s0 : rng_state)
    (i : Z) (row : list float) : Prop :=
  ∃ word, Keras.index_word tokenizer !! i = Some word
    ∧ match embeddings_index !! word ≫= broadcast with
      | Some r => row = r
      | None => ∃ s, draws_from s0 s ∧ row = (uniform s (-1) 1 EMBEDDING_SIZE).1
      end.

(** ** Further notions that the properties are stated with *)

(** Every character of [s] is in the class [p]. *)
Fixpoint every (p : ascii → bool) (s : string) : bool :=
  match s with
  | EmptyString => true
  | String c s' => p c && every p s'
  end.

(** The characters a cleaned text is made of: the lowercase letters, the
    space, and the marks [! + - : ; < = ^]. *)
Definition clean_char (c : ascii) : bool :=
  let n := Py.code c in
  ((97 <=? n) && (n <=? 122) || (n =? 32) || (n =? 33) || (n =? 43) || (n =? 45)
   || (58 <=? n) && (n <=? 61) || (n =? 94))%N.

(** One of the letters [a] to [z]. *)
Definition lowercase_letter (c : ascii) : bool :=
  let n := Py.code c in ((97 <=? n) && (n <=? 122))%N.

(** Not one of the letters [A] to [Z]. *)
Definition not_upper (c : ascii) : bool :=
  let n := Py.code c in negb ((65 <=? n) && (n <=? 90))%N.

(** A character of a cleaned text, or one of [extra]: the characters of a
    text on its way through the substitutions of [text_to_wordlist]. *)
Definition clean_or (extra : list ascii) (c : ascii) : bool :=
  clean_char c || existsb (Ascii.eqb c) extra.

(** The text starts, or ends, with a blank; it has no two blanks in a row. *)
Definition starts_blank (s : string) : bool :=
  match s with
  | EmptyString => false
  | String c _ => Py.isspace c
  end.

Fixpoint ends_blank (s : string) : bool :=
  match s with
  | EmptyString => false
  | String c EmptyString => Py.isspace c
  | String _ s' => ends_blank s'
  end.

Fixpoint no_blank_run (s : string) : bool :=
  match s with
  | EmptyString => true
  | String a s' => negb (Py.isspace a && starts_blank s') && no_blank_run s'
  end.

(** The number of blanks a text starts with. *)
Fixpoint leading_blanks (s : string) : nat :=
  match s with
  | EmptyString => 0
  | String c s' => if Py.isspace c then S (leading_blanks s') else 0
  end.

(** What [load_data] does to one line: the text is cleaned, the target goes
    through [relabel], the other columns stay. *)
Definition cleaned_row `{Runtime} (w : World) (relabel : Z → Z)
    (r : Pd.Row PyObj) (c : Pd.Row string) : Prop :=
  text_to_wordlist w (Pd.text r) false false = Ok (Pd.text c)
  ∧ Pd.target c = relabel (Pd.target r)
  ∧ Pd.ids c = Pd.ids r ∧ Pd.date c = Pd.date r
  ∧ Pd.flag c = Pd.flag r ∧ Pd.user c = Pd.user r.

(** The number of times a word occurs among the tokens of a corpus. *)
Definition occurrences (word : string) (corpus : list string) : Z :=
  Z.of_nat (length (List.filter (String.eqb word) (corpus ≫= Keras.text_to_word_sequence))).

(** [word_counts.get(w, 0)] *)
Fixpoint count_of (w : string) (wc : list (string * Z)) : Z :=
  match wc with
  | [] => 0
  | (v, n) :: rest => if String.eqb v w then n else count_of w rest
  end.

(** The counts of a list of pairs never go up. *)
Fixpoint descending (l : list (string * Z)) : Prop :=
  match l with
  | [] => True
  | x :: l' => Forall (fun y => y.2 ≤ x.2) l' ∧ descending l'
  end.

(** NumPy's contract for [permutation(n)]: a permutation of [range(n)]. *)
Definition permutation_spec `{Runtime} : Prop :=
  ∀ (s : rng_state) (n : nat), (permutation s n).1 ≡ₚ seq 0 n.

(** ** Sample data *)

Module Sample.

(** A runtime for examples: a stemmer that changes nothing, a parser that
    knows three literals, a generator that always draws -0.5 and the
    identity permutation, a memory full of sevens, and a pickle that stores
    the tuple as it is. *)
#[local] Instance runtime : Runtime := {|
  stem := fun s => s;
  float32_of_string := fun s =>
    if String.eqb s "0" then Some 0%float
    else if String.eqb s "1" then Some 1%float
    else if String.eqb s "0.5" then Some 0.5%float
    else None;
  rng_state := nat;
  uniform := fun s _ _ n => (replicate n (-0.5)%float, S s);
  permutation := fun s n => (seq 0 n, S s);
  uninitialised := fun _ _ => 7%float;
  bytes := Pickle;
  pickle_dumps := fun x => x;
  pickle_loads := Some
|}.

Definition tweets : list (Pd.Row PyObj) :=
  [ Pd.mkRow 0 1 "Mon Apr 06" "NO_QUERY" "ann" (PyStr "@bob I can't wait, it's SO good!");
    Pd.mkRow 4 2 "Mon Apr 06" "NO_QUERY" "bob" (PyStr "What's up? http://t.co/x the CAT");
    Pd.mkRow 2 3 "Tue Apr 07" "NO_QUERY" "cat" NaN;
    Pd.mkRow 4 4 "Tue Apr 07" "NO_QUERY" "dan" (PyStr "the cat sat") ].

(** The embedding file: three lines of a word and [EMBEDDING_SIZE]
    coefficients, and a line that is two coefficients short. *)
Definition coefs (c : string) : string :=
  Py.join " " (replicate EMBEDDING_SIZE c).

Definition glove : list string :=
  [ "the " +:+ coefs "0"; "cat " +:+ coefs "0.5"; "the " +:+ coefs "1";
    "sat " +:+ Py.join " " (replicate (EMBEDDING_SIZE - 2) "1") ].

Definition world : World :=
  mkWorld ∅ 0%nat None (Some tweets) (Some (take 2 tweets)) (Some glove).

(** A world whose embedding file has a line of a single coefficient and a
    line of two. *)
Definition glove_odd : list string := [ "the 1"; "cat 1 1" ].

Definition world_odd : World :=
  mkWorld ∅ 0%nat None None None (Some glove_odd).


(** A world with NLTK's stop words installed. *)
Definition world_nltk : World :=
  mkWorld ∅ 7%nat (Some ["the"; "a"; "is"]) (Some tweets) None None.

(** That world with another list of stop words. *)
Definition world_other : World :=
  mkWorld ∅ 7%nat (Some ["cat"]) (Some tweets) None None.

Definition params : Params := mkParams "cache".

Fixpoint letters (p : positive) : string :=
  match p with
  | xH => "a"
  | xO q => String "b" (letters q)
  | xI q => String "c" (letters q)
  end.

(** [VOCAB_SIZE] texts, each a word of its own, and a corpus of them and
    of one more text. *)
Definition words : list string :=
  (fun n => letters (Pos.of_succ_nat n)) <$> seq 0 (Z.to_nat VOCAB_SIZE).

Definition corpus : list string := "the cat" :: words.

Definition features : list (list Z) := [[1; 2]; [3; 4]; [5; 6]].

End Sample.

(** * Properties *)

Set Warnings "-clear-no-such-hyp".

(** ** The model on sample data *)

Example text_to_wordlist_tweet :
  text_to_wordlist Sample.world (PyStr "@bob I can't wait, it's SO good! http://t.co/x e-mail 10k") false false
  = Ok "i cannot wait it so good ! email k"%string.
Proof. vm_compute. reflexivity. Qed.

Example text_to_wordlist_stop_words :
  text_to_wordlist Sample.world_nltk (PyStr "The cat is a CAT") true false
  = Ok "cat cat"%string.
Proof. vm_compute. reflexivity. Qed.

Example get_tokenizer_indices :
  (fun w => Keras.word_index (get_tokenizer ["b a a"; "c, b A"; "d"]) !! w)
    <$> ["a"; "b"; "c"; "d"; "e"]%string
  = [Some 1; Some 2; Some 3; Some 4; None].
Proof. vm_compute. reflexivity. Qed.

Example get_padded_sequences_short :
  drop 46 <$> get_padded_sequences (get_tokenizer ["b a a"; "c b a"; "d"]) ["a b zz d"; ""]%string
  = [[0; 1; 2; 4]; [0; 0; 0; 0]].
Proof. vm_compute. reflexivity. Qed.

Example get_padded_sequences_long :
  get_padded_sequences (get_tokenizer ["a b"]) [Py.join " " ("b" :: replicate 50 "a")]%string
  = [replicate 50 1].
Proof. vm_compute. reflexivity. Qed.

Example input_fn_inference_batches :
  rbind (input_fn Sample.features None 2 (Some 10)) (fun d => Ok (TfData.elements d))
  = Ok (Some [TfData.Batch [TfData.Example [1; 2]; TfData.Example [3; 4]];
              TfData.Batch [TfData.Example [5; 6]]]).
Proof. reflexivity. Qed.

(** ** The text normaliser *)

Lemma text_to_wordlist_not_str `{Runtime} (w : World) x remove_stopwords stem_words :
  is_str x = false →
  text_to_wordlist w x remove_stopwords stem_words
  = text_to_wordlist w (PyStr "unk") remove_stopwords stem_words.
Proof. destruct x; [discriminate | reflexivity ..]. Qed.

Lemma text_to_wordlist_keeps_stopwords `{Runtime} (w : World) x stem_words :
  ∃ s, text_to_wordlist w x false stem_words = Ok s.
Proof. eexists. reflexivity. Qed.

Lemma text_to_wordlist_installed `{Runtime} (w : World) x remove_stopwords stem_words :
  remove_stopwords = false ∨ is_Some (nltk_stopwords w) →
  is_ok (text_to_wordlist w x remove_stopwords stem_words) = true.
Proof.
  intros [-> | [words Hwords]]; [reflexivity|].
  unfold text_to_wordlist. rewrite Hwords.
  destruct remove_stopwords; reflexivity.
Qed.

(** C9. An argument that is not a [str] is replaced by ["unk"]: the call
    returns what the normalisation of ["unk"] returns, whatever the flags;
    with the default flags that is the text ["unk"], and the call raises
    nothing unless the stop words are asked for and NLTK's list is not
    installed. *)
Theorem text_to_wordlist_total_on_non_str `{Runtime} (w : World) (x : PyObj)
    (remove_stopwords stem_words : bool) :
  is_str x = false →
  text_to_wordlist w x remove_stopwords stem_words
  = text_to_wordlist w (PyStr "unk") remove_stopwords stem_words
  ∧ text_to_wordlist w x false false = Ok "unk"%string
  ∧ (remove_stopwords = false ∨ is_Some (nltk_stopwords w) →
     is_ok (text_to_wordlist w x remove_stopwords stem_words) = true).
Proof.
  intros Hx. split; [|split].
  - by apply text_to_wordlist_not_str.
  - by rewrite text_to_wordlist_not_str.
  - apply text_to_wordlist_installed.
Qed.

Lemma text_to_wordlist_total_on_non_str_witness :
  text_to_wordlist Sample.world NaN true true
  = text_to_wordlist Sample.world (PyStr "unk") true true
  ∧ text_to_wordlist Sample.world NaN false false = Ok "unk"%string
  ∧ (true = false ∨ is_Some (nltk_stopwords Sample.world) →
     is_ok (text_to_wordlist Sample.world NaN true true) = true).
Proof.
  apply (text_to_wordlist_total_on_non_str Sample.world NaN true true).
  reflexivity.
Defined.

(** C7, as stated, fails: with [remove_stopwords] set, two calls with the
    same text and flags return different strings when NLTK's list of stop
    words differs between them. *)
Lemma text_to_wordlist_reads_nltk_data :
  ¬ (∀ (w1 w2 : @World Sample.runtime) (x : PyObj) (remove_stopwords stem_words : bool),
       text_to_wordlist w1 x remove_stopwords stem_words
       = text_to_wordlist w2 x remove_stopwords stem_words).
Proof.
  intros claim.
  specialize (claim Sample.world_nltk Sample.world_other (PyStr "The cat") true false).
  vm_compute in claim. discriminate claim.
Qed.

(** C7, amended. The result of [text_to_wordlist] is a function of its
    three arguments and, when [remove_stopwords] is set, of NLTK's list of
    stop words: nothing else of the outside world is read, and with
    [remove_stopwords] unset, as in every call the module makes, nothing of
    it at all. *)
Theorem text_to_wordlist_deterministic `{Runtime} (w1 w2 : World) (x : PyObj)
    (remove_stopwords stem_words : bool) :
  (remove_stopwords = true → nltk_stopwords w1 = nltk_stopwords w2) →
  text_to_wordlist w1 x remove_stopwords stem_words
  = text_to_wordlist w2 x remove_stopwords stem_words.
Proof.
  intros Hstops. unfold text_to_wordlist.
  destruct remove_stopwords; [rewrite Hstops by done|]; reflexivity.
Qed.

Lemma text_to_wordlist_deterministic_witness :
  text_to_wordlist Sample.world_nltk (PyStr "The cat") true false
  = text_to_wordlist (set_np_random Sample.world_nltk 8%nat) (PyStr "The cat") true false
  ∧ text_to_wordlist Sample.world_nltk (PyStr "The cat") false true
    = text_to_wordlist Sample.world_other (PyStr "The cat") false true.
Proof.
  split.
  - apply (text_to_wordlist_deterministic Sample.world_nltk
             (set_np_random Sample.world_nltk 8%nat) (PyStr "The cat") true false).
    intros _. reflexivity.
  - apply (text_to_wordlist_deterministic Sample.world_nltk Sample.world_other
             (PyStr "The cat") false true).
    intros Hflag. discriminate Hflag.
Defined.

(** ** The corpus loader *)

Lemma clean_text_ok `{Runtime} (w : World) (df : list (Pd.Row PyObj)) :
  ∃ df', clean_text w df = Ok df'
         ∧ Pd.target <$> df' = Pd.target <$> df.
Proof.
  induction df as [|r df (df' & Hdf & Htarget)].
  - by exists [].
  - destruct (text_to_wordlist_keeps_stopwords w (Pd.text r) false) as [t Ht].
    exists (Pd.with_text r t :: df'). unfold clean_text in *.
    cbn [traverse mbind result_mbind rbind]. rewrite Ht.
    cbn [traverse mbind result_mbind rbind]. rewrite Hdf.
    split; [done|]. by rewrite !fmap_cons, Htarget.
Qed.

Lemma replace_4_1 (v : Z) :
  (v = 4 → Pd.replace 4 1 v = 1) ∧ (v ≠ 4 → Pd.replace 4 1 v = v).
Proof.
  unfold Pd.replace. destruct (Z.eqb_spec v 4); split; intros; congruence.
Qed.

Lemma load_data_targets `{Runtime} (w : World) raw raw_inf :
  train_csv w = Some raw → test_csv w = Some raw_inf →
  ∃ df inf_df, load_data w = Ok (df, inf_df)
    ∧ Pd.target <$> df = Pd.replace 4 1 <$> (Pd.target <$> raw)
    ∧ Pd.target <$> inf_df = Pd.target <$> raw_inf.
Proof.
  intros Htrain Htest. unfold load_data. rewrite Htrain, Htest.
  destruct (clean_text_ok w raw) as (df & -> & Hdf).
  destruct (clean_text_ok w raw_inf) as (inf_df & -> & Hinf).
  eexists _, _. split; [reflexivity|]. split; [|done].
  rewrite <- Hdf, <- !list_fmap_compose. done.
Qed.

(** C6. When both CSV files can be read, [load_data] returns, and the
    training frame it returns has the lines of the raw one in their order,
    with every target 4 replaced by 1 and every other target unchanged. *)
Theorem load_data_remaps_labels `{Runtime} (w : World) raw raw_inf :
  train_csv w = Some raw → test_csv w = Some raw_inf →
  ∃ df inf_df, load_data w = Ok (df, inf_df)
    ∧ length df = length raw
    ∧ ∀ i r, raw !! i = Some r →
        ∃ r', df !! i = Some r'
          ∧ (Pd.target r = 4 → Pd.target r' = 1)
          ∧ (Pd.target r ≠ 4 → Pd.target r' = Pd.target r).
Proof.
  intros Htrain Htest.
  destruct (load_data_targets w raw raw_inf Htrain Htest)
    as (df & inf_df & Hload & Htargets & _).
  exists df, inf_df. split; [done|].
  assert (Hlen : length df = length raw).
  { rewrite <- (length_fmap Pd.target df), Htargets, !length_fmap. done. }
  split; [done|]. intros i r Hr.
  destruct (lookup_lt_is_Some_2 df i) as [r' Hr'].
  { rewrite Hlen. by eapply lookup_lt_Some. }
  exists r'. split; [done|].
  assert (Ht : Pd.target r' = Pd.replace 4 1 (Pd.target r)).
  { apply (f_equal (fun l => l !! i)) in Htargets.
    rewrite !list_lookup_fmap, Hr', Hr in Htargets. simpl in Htargets. congruence. }
  rewrite Ht. apply replace_4_1.
Qed.

Lemma load_data_remaps_labels_witness :
  ∃ df inf_df, load_data Sample.world = Ok (df, inf_df)
    ∧ length df = length Sample.tweets
    ∧ ∀ i r, Sample.tweets !! i = Some r →
        ∃ r', df !! i = Some r'
          ∧ (Pd.target r = 4 → Pd.target r' = 1)
          ∧ (Pd.target r ≠ 4 → Pd.target r' = Pd.target r).
Proof.
  apply (load_data_remaps_labels Sample.world Sample.tweets (take 2 Sample.tweets));
    reflexivity.
Defined.

(** ** The vocabulary builder and the sequence encoder *)

Section dict.
Context `{Countable K} {V : Type}.
Implicit Types (pairs : list (K * V)) (m : gmap K V).

Lemma dict_from_lookup_None pairs m k :
  (foldl (fun m kv => <[kv.1 := kv.2]> m) m pairs) !! k = None
  ↔ (k ∉ pairs.*1) ∧ m !! k = None.
Proof.
  revert m. induction pairs as [|[k' v'] pairs IH]; intros m; simpl.
  - rewrite elem_of_nil. tauto.
  - rewrite IH, elem_of_cons, lookup_insert_None. simpl. intuition congruence.
Qed.

Lemma dict_from_lookup_Some pairs m k v :
  (foldl (fun m kv => <[kv.1 := kv.2]> m) m pairs) !! k = Some v →
  (k, v) ∈ pairs ∨ m !! k = Some v.
Proof.
  revert m. induction pairs as [|[k' v'] pairs IH]; intros m; simpl.
  - auto.
  - intros [Hin | Hm]%IH.
    + left. by right.
    + apply lookup_insert_Some in Hm as [[<- <-] | [_ Hm]]; [left; left | by right].
Qed.

Lemma dict_lookup_None pairs k : Keras.dict pairs !! k = None ↔ k ∉ pairs.*1.
Proof.
  unfold Keras.dict. rewrite dict_from_lookup_None, lookup_empty. tauto.
Qed.

Lemma dict_lookup_Some pairs k v : Keras.dict pairs !! k = Some v → (k, v) ∈ pairs.
Proof.
  unfold Keras.dict. intros [? | Hm]%dict_from_lookup_Some; [done|].
  by rewrite lookup_empty in Hm.
Qed.
End dict.

Lemma enumerate_from_1_values voc w i :
  (w, i) ∈ Keras.enumerate_from_1 voc → 1 ≤ i ≤ Z.of_nat (length voc).
Proof.
  unfold Keras.enumerate_from_1. intros Hin.
  apply elem_of_zip_r in Hin. apply elem_of_seqZ in Hin. lia.
Qed.

Lemma enumerate_from_1_indices voc :
  (prod_swap <$> Keras.enumerate_from_1 voc).*1 = seqZ 1 (Z.of_nat (length voc)).
Proof.
  unfold Keras.enumerate_from_1.
  rewrite <- list_fmap_compose.
  rewrite (list_fmap_ext (fst ∘ prod_swap) snd) by (by intros ? [? ?]).
  apply snd_zip. rewrite length_seqZ. lia.
Qed.

(** The indices that [index_word] knows are those from 1 to the number of
    words. *)
Lemma enumerated_index_word voc i :
  is_Some (Keras.dict (prod_swap <$> Keras.enumerate_from_1 voc) !! i)
  ↔ 1 ≤ i ≤ Z.of_nat (length voc).
Proof.
  rewrite <- not_eq_None_Some, dict_lookup_None, enumerate_from_1_indices, elem_of_seqZ.
  split; [|lia]. intros Hin.
  destruct (decide (1 ≤ i < 1 + Z.of_nat (length voc))); [lia|done].
Qed.

Lemma insert_desc_perm x l : Keras.insert_desc x l ≡ₚ x :: l.
Proof.
  induction l as [|y l IH]; simpl; [done|].
  destruct (x.2 <? y.2); [|done].
  rewrite IH. apply Permutation_swap.
Qed.

Lemma sort_desc_perm l : Keras.sort_desc l ≡ₚ l.
Proof.
  induction l as [|x l IH]; simpl; [done|].
  by rewrite insert_desc_perm, IH.
Qed.

Lemma bump_keys w wc :
  (Keras.bump w wc).*1 = if bool_decide (w ∈ wc.*1) then wc.*1 else wc.*1 ++ [w].
Proof.
  induction wc as [|[v n] wc IH]; [done|].
  cbn [Keras.bump]. destruct (String.eqb_spec v w) as [->|Hne]; rewrite !fmap_cons; cbn [fst].
  - rewrite bool_decide_eq_true_2 by left. done.
  - rewrite IH. destruct (decide (w ∈ wc.*1)) as [Hin|Hin].
    + rewrite !bool_decide_eq_true_2; [done| by right |done].
    + rewrite !bool_decide_eq_false_2; [done| |done].
      rewrite elem_of_cons. intros [->|?]; done.
Qed.

Lemma bump_NoDup w wc : NoDup wc.*1 → NoDup (Keras.bump w wc).*1.
Proof.
  intros Hwc. rewrite bump_keys. case_bool_decide; [done|].
  apply NoDup_app. split; [done|]. split; [|apply NoDup_singleton].
  intros x Hx ->%list_elem_of_singleton. done.
Qed.

Lemma bump_key_set w wc :
  list_to_set (Keras.bump w wc).*1 =@{gset string} {[w]} ∪ list_to_set wc.*1.
Proof.
  rewrite bump_keys. case_bool_decide as Hin.
  - apply (elem_of_list_to_set (C := gset string)) in Hin. set_solver.
  - rewrite list_to_set_app_L. set_solver.
Qed.

Lemma count_words_keys ws wc :
  NoDup wc.*1 →
  NoDup (foldl (fun wc w => Keras.bump w wc) wc ws).*1
  ∧ list_to_set (foldl (fun wc w => Keras.bump w wc) wc ws).*1
    =@{gset string} list_to_set ws ∪ list_to_set wc.*1.
Proof.
  revert wc. induction ws as [|w ws IH]; intros wc Hwc; simpl.
  - split; [done|]. set_solver.
  - destruct (IH (Keras.bump w wc)) as [Hnd Hset]; [by apply bump_NoDup|].
    split; [done|]. rewrite Hset, bump_key_set. set_solver.
Qed.

Lemma count_texts_keys texts wc :
  NoDup wc.*1 →
  NoDup (foldl Keras.count_text wc texts).*1
  ∧ list_to_set (foldl Keras.count_text wc texts).*1
    =@{gset string} vocabulary texts ∪ list_to_set wc.*1.
Proof.
  revert wc. induction texts as [|text texts IH]; intros wc Hwc; simpl.
  - split; [done|]. unfold vocabulary. set_solver.
  - destruct (count_words_keys (Keras.text_to_word_sequence text) wc Hwc) as [Hnd Hset].
    destruct (IH _ Hnd) as [Hnd' Hset'].
    split; [done|]. unfold Keras.count_text at 2. rewrite Hset', Hset.
    unfold vocabulary. simpl. rewrite list_to_set_app_L. set_solver.
Qed.

(** The tokenizer knows as many words as the corpus has distinct tokens. *)
Lemma get_tokenizer_word_counts corpus :
  length (Keras.word_counts (get_tokenizer corpus)) = size (vocabulary corpus).
Proof.
  destruct (count_texts_keys corpus [] (NoDup_nil_2)) as [Hnd Hset].
  simpl in *. rewrite <- (length_fmap fst).
  rewrite <- (size_list_to_set (C := gset string)) by done.
  rewrite Hset. f_equal. set_solver.
Qed.

Lemma fit_on_texts_word_index tk texts w i :
  Keras.word_index (Keras.fit_on_texts tk texts) !! w = Some i →
  1 ≤ i ≤ Z.of_nat (length (Keras.word_counts (Keras.fit_on_texts tk texts))).
Proof.
  simpl. intros Hin%dict_lookup_Some.
  apply enumerate_from_1_values in Hin.
  by rewrite length_fmap, sort_desc_perm in Hin.
Qed.

Lemma fit_on_texts_index_word tk texts i :
  is_Some (Keras.index_word (Keras.fit_on_texts tk texts) !! i)
  ↔ 1 ≤ i ≤ Z.of_nat (length (Keras.word_counts (Keras.fit_on_texts tk texts))).
Proof.
  simpl. by rewrite enumerated_index_word, length_fmap, sort_desc_perm.
Qed.

Lemma int32_small (z : Z) : - 2 ^ 31 ≤ z < 2 ^ 31 → Keras.int32 z = z.
Proof.
  intros Hz. unfold Keras.int32.
  rewrite Z.mod_small; lia.
Qed.

Lemma pad_sequence_length maxlen s : length (Keras.pad_sequence maxlen s) = maxlen.
Proof.
  unfold Keras.pad_sequence.
  rewrite length_app, length_replicate, length_fmap, length_drop. lia.
Qed.

(** The indices of a text encoded by a fitted tokenizer are those of known
    words under the cap. *)
Lemma text_to_sequence_range corpus text :
  Forall (fun i => 1 ≤ i < VOCAB_SIZE)
         (Keras.text_to_sequence (get_tokenizer corpus) text).
Proof.
  apply Forall_forall. intros i Hi.
  unfold Keras.text_to_sequence in Hi.
  apply list_elem_of_omap in Hi as (w & _ & Hw).
  destruct (Keras.word_index (get_tokenizer corpus) !! w) as [j|] eqn:Hj; [|done].
  destruct (Keras.capped _ j) eqn:Hcap; [done|].
  injection Hw as ->.
  apply fit_on_texts_word_index in Hj.
  unfold get_tokenizer in Hcap. cbn in Hcap.
  unfold VOCAB_SIZE in *. lia.
Qed.

Lemma fmap_int32_small (s : list Z) :
  Forall (fun i => 1 ≤ i < VOCAB_SIZE) s → Keras.int32 <$> s = s.
Proof.
  induction 1 as [|i s Hi _ IH]; [done|].
  rewrite fmap_cons, IH, int32_small; [done|].
  unfold VOCAB_SIZE in Hi. lia.
Qed.

Lemma pad_sequence_fitted corpus text :
  let s := Keras.text_to_sequence (get_tokenizer corpus) text in
  Keras.pad_sequence 50 s = replicate (50 - length s) 0 ++ drop (length s - 50) s.
Proof.
  intros s. unfold Keras.pad_sequence.
  rewrite fmap_int32_small.
  - rewrite length_drop. f_equal. f_equal. lia.
  - apply Forall_drop, text_to_sequence_range.
Qed.

(** C2. Every line of the array [get_padded_sequences] returns has 50
    entries, whatever the tokenizer. For a tokenizer fitted by
    [get_tokenizer] the line of a text is its sequence of indices cut to its
    last 50 entries when it has more, and with zeros put in front of it
    when it has fewer. *)
Theorem get_padded_sequences_fixed_length (tokenizer0 : Keras.Tokenizer)
    (corpus text : list string) :
  let tokenizer := get_tokenizer corpus in
  Forall (fun row => length row = 50%nat) (get_padded_sequences tokenizer0 text)
  ∧ Forall2 (fun s row =>
             length row = 50%nat
             ∧ ((50 < length s)%nat → row = drop (length s - 50) s)
             ∧ ((length s ≤ 50)%nat → row = replicate (50 - length s) 0 ++ s))
          (Keras.texts_to_sequences tokenizer text)
          (get_padded_sequences tokenizer text).
Proof.
  intros tokenizer. unfold get_padded_sequences, Keras.pad_sequences. split.
  { apply Forall_fmap, Forall_forall. intros s _. apply pad_sequence_length. }
  apply Forall2_fmap_r, Forall_Forall2_diag.
  unfold Keras.texts_to_sequences. apply Forall_fmap, Forall_forall.
  intros t _. simpl.
  split; [apply pad_sequence_length|].
  unfold tokenizer. rewrite pad_sequence_fitted.
  split; intros Hlen.
  - replace (50 - _)%nat with 0%nat by lia. done.
  - replace (length _ - 50)%nat with 0%nat by lia. done.
Qed.

(** C3. Every integer of the padded sequences that a tokenizer fitted by
    [get_tokenizer] produces, for any corpus and any texts, is at least 0
    and less than [VOCAB_SIZE]. *)
Theorem get_padded_sequences_below_vocab_size (corpus text : list string) :
  Forall (Forall (fun i => 0 ≤ i < VOCAB_SIZE))
         (get_padded_sequences (get_tokenizer corpus) text).
Proof.
  unfold get_padded_sequences, Keras.pad_sequences, Keras.texts_to_sequences.
  rewrite <- list_fmap_compose. apply Forall_fmap, Forall_forall.
  intros t _. simpl. rewrite pad_sequence_fitted.
  apply Forall_app. split.
  - apply Forall_replicate. unfold VOCAB_SIZE. lia.
  - apply Forall_drop. eapply Forall_impl; [apply text_to_sequence_range|].
    simpl. lia.
Qed.

(** The dictionaries of a fitted tokenizer. *)

Section dict_NoDup.
Context `{Countable K} {V : Type}.
Implicit Types (pairs : list (K * V)) (m : gmap K V).

Lemma dict_from_lookup_fresh pairs m k :
  k ∉ pairs.*1 → (foldl (fun m kv => <[kv.1 := kv.2]> m) m pairs) !! k = m !! k.
Proof.
  revert m. induction pairs as [|[k' v'] pairs IH]; intros m; simpl; [done|].
  intros [Hne Hfresh]%not_elem_of_cons. rewrite IH by done.
  by apply lookup_insert_ne.
Qed.

Lemma dict_lookup_NoDup pairs k v :
  NoDup pairs.*1 → Keras.dict pairs !! k = Some v ↔ (k, v) ∈ pairs.
Proof.
  intros Hnodup. split; [apply dict_lookup_Some|]. unfold Keras.dict.
  generalize (∅ : gmap K V). induction pairs as [|[k' v'] pairs IH]; intros m.
  - by intros ?%elem_of_nil.
  - rewrite fmap_cons in Hnodup. apply NoDup_cons in Hnodup as [Hfresh Hnodup].
    intros [[= -> ->]|Hin]%elem_of_cons; simpl.
    + rewrite dict_from_lookup_fresh by done. apply lookup_insert_eq.
    + by apply IH.
Qed.
End dict_NoDup.

Lemma enumerate_from_1_lookup voc w i :
  (w, i) ∈ Keras.enumerate_from_1 voc ↔ 1 ≤ i ∧ voc !! Z.to_nat (i - 1) = Some w.
Proof.
  unfold Keras.enumerate_from_1. rewrite (elem_of_lookup_zip_with pair). split.
  - intros (k & x & y & [= -> ->] & Hx & Hy). apply lookup_seqZ in Hy as [-> Hk].
    split; [lia|]. by replace (Z.to_nat (1 + Z.of_nat k - 1)) with k by lia.
  - intros [Hi Hw]. exists (Z.to_nat (i - 1)), w, i. split; [done|]. split; [done|].
    apply lookup_seqZ. apply lookup_lt_Some in Hw. lia.
Qed.

Lemma enumerate_from_1_words voc : (Keras.enumerate_from_1 voc).*1 = voc.
Proof.
  unfold Keras.enumerate_from_1. apply fst_zip. rewrite length_seqZ. lia.
Qed.

Lemma get_tokenizer_sorted_voc corpus :
  let voc := (Keras.sort_desc (Keras.word_counts (get_tokenizer corpus))).*1 in
  NoDup voc ∧ ∀ w, w ∈ voc ↔ w ∈ vocabulary corpus.
Proof.
  intros voc. destruct (count_texts_keys corpus [] (NoDup_nil_2)) as [Hnd Hset].
  assert (Hperm : voc ≡ₚ (foldl Keras.count_text [] corpus).*1).
  { unfold voc. by rewrite sort_desc_perm. }
  split; [by rewrite Hperm|]. intros w. rewrite Hperm.
  rewrite <- (elem_of_list_to_set (C := gset string)), Hset. set_solver.
Qed.

Lemma get_tokenizer_word_index corpus w i :
  Keras.word_index (get_tokenizer corpus) !! w = Some i
  ↔ 1 ≤ i
    ∧ (Keras.sort_desc (Keras.word_counts (get_tokenizer corpus))).*1 !! Z.to_nat (i - 1)
      = Some w.
Proof.
  destruct (get_tokenizer_sorted_voc corpus) as [Hnd _].
  rewrite <- enumerate_from_1_lookup. apply dict_lookup_NoDup.
  by rewrite enumerate_from_1_words.
Qed.

Lemma get_tokenizer_index_word corpus w i :
  Keras.index_word (get_tokenizer corpus) !! i = Some w
  ↔ 1 ≤ i
    ∧ (Keras.sort_desc (Keras.word_counts (get_tokenizer corpus))).*1 !! Z.to_nat (i - 1)
      = Some w.
Proof.
  rewrite <- enumerate_from_1_lookup.
  change (Keras.index_word (get_tokenizer corpus))
    with (Keras.dict (prod_swap <$> Keras.enumerate_from_1
            (Keras.sort_desc (Keras.word_counts (get_tokenizer corpus))).*1)).
  rewrite dict_lookup_NoDup by (rewrite enumerate_from_1_indices; apply NoDup_seqZ).
  rewrite list_elem_of_fmap. split.
  - by intros ([w' i'] & [= -> ->] & Hin).
  - intros Hin. by exists (w, i).
Qed.

(** A corpus in which no token comes twice: the words are numbered in the
    order they first come. *)
Lemma bump_fresh w wc : (w ∉ wc.*1) → Keras.bump w wc = wc ++ [(w, 1)].
Proof.
  induction wc as [|[v n] wc IH]; [done|]. rewrite fmap_cons.
  intros [Hne Hfresh]%not_elem_of_cons. cbn [Keras.bump fst].
  destruct (String.eqb_spec v w) as [->|_]; [done|]. by rewrite IH.
Qed.

Lemma count_words_fresh ws wc :
  NoDup (wc.*1 ++ ws) →
  foldl (fun wc w => Keras.bump w wc) wc ws = wc ++ ((fun w => (w, 1)) <$> ws).
Proof.
  revert wc. induction ws as [|w ws IH]; intros wc Hnodup.
  - by rewrite app_nil_r.
  - cbn [foldl]. apply NoDup_app in Hnodup as (Hwc & Hdisjoint & Hws).
    apply NoDup_cons in Hws as [Hw Hws].
    rewrite bump_fresh by (intros Hin; apply (Hdisjoint w Hin); left).
    rewrite IH.
    + by rewrite <- app_assoc.
    + rewrite fmap_app. cbn [fmap list_fmap fst]. rewrite <- app_assoc.
      apply NoDup_app. split; [done|]. split; [|by apply NoDup_cons].
      intros x Hx. by apply Hdisjoint.
Qed.

Lemma count_texts_tokens texts wc :
  foldl Keras.count_text wc texts
  = foldl (fun wc w => Keras.bump w wc) wc (texts ≫= Keras.text_to_word_sequence).
Proof.
  revert wc. induction texts as [|text texts IH]; intros wc; [done|].
  cbn [foldl]. rewrite bind_cons, foldl_app, IH. done.
Qed.

Lemma sort_desc_ties l : Forall (fun x => x.2 = 1) l → Keras.sort_desc l = l.
Proof.
  induction 1 as [|x l Hx Hl IH]; [done|]. cbn [Keras.sort_desc foldr].
  fold (Keras.sort_desc l). rewrite IH.
  destruct Hl as [|y l Hy _]; [done|]. cbn [Keras.insert_desc].
  by rewrite Hx, Hy.
Qed.

Lemma get_tokenizer_first_seen corpus (i : Z) w :
  NoDup (corpus ≫= Keras.text_to_word_sequence) →
  1 ≤ i →
  (corpus ≫= Keras.text_to_word_sequence) !! Z.to_nat (i - 1) = Some w →
  Keras.index_word (get_tokenizer corpus) !! i = Some w.
Proof.
  intros Hnodup Hi Hw. apply get_tokenizer_index_word. split; [done|].
  assert (Hcounts : Keras.word_counts (get_tokenizer corpus)
                    = (fun w => (w, 1)) <$> (corpus ≫= Keras.text_to_word_sequence)).
  { cbn [get_tokenizer Keras.fit_on_texts Keras.word_counts Keras.new].
    rewrite count_texts_tokens, count_words_fresh; [done|]. done. }
  rewrite Hcounts, sort_desc_ties.
  - rewrite <- list_fmap_compose. by rewrite list_lookup_fmap, Hw.
  - apply Forall_fmap, Forall_forall. done.
Qed.

(** ** The pipeline cache *)

(** A call that finds the directory reads the pickle and nothing else. *)
Lemma get_data_cached `{Runtime} (params : Params) (w : World) x :
  pickle_spec →
  fs w !! Py.path_join (data_dir params) "data.pkl" = Some (File (pickle_dumps x)) →
  Os.path_exists w (data_dir params) = true →
  get_data params w = (Ok (artifacts_of x), w).
Proof.
  intros Hpickle Hfile Hdir. unfold get_data. rewrite Hdir.
  unfold mbind, io_mbind, io_bind, Os.read_file. rewrite Hfile, Hpickle.
  by destruct x as [[[[[train_X test_X] train_y] test_y] inf_text] tokenizer].
Qed.

(** What a first call leaves behind. *)
Lemma get_data_computed `{Runtime} (params : Params) (w w1 : World) t :
  Os.path_exists w (data_dir params) = false →
  get_data params w = (Ok t, w1) →
  ∃ x, t = artifacts_of x
       ∧ fs w1 !! Py.path_join (data_dir params) "data.pkl" = Some (File (pickle_dumps x))
       ∧ is_Some (fs w1 !! data_dir params).
Proof.
  intros Hdir. unfold get_data. rewrite Hdir.
  unfold mbind, io_mbind, io_bind, io_read.
  destruct (load_data w) as [[df inf_df]|]; [|done].
  destruct (Sklearn.train_test_split _ _ w) as [[[[[train_X test_X] train_y] test_y]|] w'];
    [|done].
  unfold Os.makedirs. destruct (_ && _); [|done].
  unfold Os.write_file. cbn [fs set_fs].
  destruct (_ !! Py.path_join _ _) as [[|]|] eqn:Hpath; [done| |];
    intros [= <- <-]; eexists (_, _, _, _, _, _); cbn [fst snd fs set_fs];
    (split; [reflexivity|]); rewrite lookup_insert_eq; (split; [done|]);
    rewrite lookup_insert; case_decide; eauto; rewrite lookup_insert_eq; eauto.
Qed.

(** C5. When a call of [get_data] that does not find the directory
    returns, a call with the same parameters in the world it leaves returns
    the same tuple. That call computes nothing: it returns that tuple and
    changes nothing in any world with the same files, whatever the CSV
    files, the generator and the rest of it have become. *)
Theorem get_data_round_trip `{Runtime} (params : Params) (w w1 : World) (t : Artifacts) :
  pickle_spec →
  Os.path_exists w (data_dir params) = false →
  get_data params w = (Ok t, w1) →
  ∀ w2 : World, fs w2 = fs w1 → get_data params w2 = (Ok t, w2).
Proof.
  intros Hpickle Hdir Hfirst w2 Hfs.
  destruct (get_data_computed params w w1 t Hdir Hfirst) as (x & -> & Hfile & Hexists).
  apply get_data_cached; [done| by rewrite Hfs |].
  unfold Os.path_exists. rewrite Hfs. by apply bool_decide_eq_true_2.
Qed.

Lemma sample_pickle_spec : @pickle_spec Sample.runtime.
Proof. intros x. reflexivity. Qed.

Lemma get_data_round_trip_witness :
  match get_data Sample.params Sample.world with
  | (Ok t, w1) =>
      get_data Sample.params w1 = (Ok t, w1)
      ∧ get_data Sample.params (set_np_random w1 5%nat) = (Ok t, set_np_random w1 5%nat)
  | (Raise _, _) => False
  end.
Proof.
  destruct (get_data Sample.params Sample.world) as [[t|e] w1] eqn:Hfirst.
  - split.
    + exact (get_data_round_trip Sample.params Sample.world w1 t
               sample_pickle_spec eq_refl Hfirst w1 eq_refl).
    + exact (get_data_round_trip Sample.params Sample.world w1 t
               sample_pickle_spec eq_refl Hfirst (set_np_random w1 5%nat) eq_refl).
  - vm_compute in Hfirst. discriminate Hfirst.
Defined.

(** ** The embedding loader *)

Section embeddings.
Context `{Runtime}.
Implicit Types (lines : list string) (m idx : gmap string (list float)).

Lemma parse_line_word line word v :
  parse_line line = Ok (word, v) → line_word line = Some word.
Proof.
  unfold parse_line, line_word.
  destruct (Py.split line) as [|word' values]; [done|].
  destruct (mapM _ values); [|done]. by intros [= -> _].
Qed.

Lemma read_embeddings_app pre post m :
  read_embeddings (pre ++ post) m
  = rbind (read_embeddings pre m) (read_embeddings post).
Proof.
  revert m. induction pre as [|line pre IH]; intros m; simpl; [done|].
  destruct (parse_line line) as [[word v]|]; [apply IH | done].
Qed.

(** A word that heads no line keeps the entry it had. *)
Lemma read_embeddings_absent lines m idx word :
  read_embeddings lines m = Ok idx →
  Forall (fun l => line_word l ≠ Some word) lines →
  idx !! word = m !! word.
Proof.
  revert m. induction lines as [|line lines IH]; intros m; simpl.
  - by intros [= ->].
  - destruct (parse_line line) as [[word' v]|] eqn:Hline; [|done].
    intros Hread Habsent. apply Forall_cons in Habsent as [Hne Habsent].
    rewrite (IH _ Hread Habsent). apply lookup_insert_ne.
    apply parse_line_word in Hline. congruence.
Qed.

(** The entry of a word is the vector of the last line it heads. *)
Lemma read_embeddings_last pre line post m idx word v :
  read_embeddings (pre ++ line :: post) m = Ok idx →
  parse_line line = Ok (word, v) →
  Forall (fun l => line_word l ≠ Some word) post →
  idx !! word = Some v.
Proof.
  rewrite read_embeddings_app.
  destruct (read_embeddings pre m) as [m1|]; [|done]. simpl.
  intros Hread Hline Habsent. rewrite Hline in Hread.
  rewrite (read_embeddings_absent _ _ _ _ Hread Habsent).
  apply lookup_insert_eq.
Qed.

(** A file of dimension [EMBEDDING_SIZE] is read without an error. *)
Lemma read_embeddings_well_formed lines m :
  Forall (fun l => is_embedding_line l = true) lines →
  map_Forall (fun _ v => length v = EMBEDDING_SIZE) m →
  ∃ idx, read_embeddings lines m = Ok idx
         ∧ map_Forall (fun _ v => length v = EMBEDDING_SIZE) idx.
Proof.
  intros Hlines. revert m. induction Hlines as [|line lines Hline _ IH]; intros m Hm; simpl.
  - by exists m.
  - unfold is_embedding_line in Hline.
    destruct (parse_line line) as [[word v]|]; [|done].
    apply IH, map_Forall_insert_2; [|done]. by apply Nat.eqb_eq.
Qed.

Lemma broadcast_full v : length v = EMBEDDING_SIZE → broadcast v = Some v.
Proof. unfold broadcast. by intros ->. Qed.

Lemma broadcast_length v row : broadcast v = Some row → length row = EMBEDDING_SIZE.
Proof.
  unfold broadcast. destruct (Nat.eqb_spec (length v) 50) as [Hlen|_].
  - by intros [= <-].
  - destruct v as [|x [|]]; [done| |done]. by intros [= <-].
Qed.

Lemma fill_embedding_spec tokenizer idx todo embedding (w : World) s0 :
  uniform_spec →
  draws_from s0 (np_random w) →
  NoDup todo →
  Forall (fun i => 1 ≤ i ∧ is_Some (Keras.index_word tokenizer !! i)) todo →
  ∃ final w', fill_embedding tokenizer idx todo embedding w = (Ok final, w')
    ∧ length final = length embedding
    ∧ (∀ j : nat, Z.of_nat j + 1 ∉ todo → final !! j = embedding !! j)
    ∧ (∀ i, i ∈ todo → (Z.to_nat (i - 1) < length embedding)%nat →
         ∃ row, final !! Z.to_nat (i - 1) = Some row ∧ row_of tokenizer idx s0 i row).
Proof.
  intros Huniform Hdraws Hnodup Htodo. revert embedding w Hdraws.
  induction Htodo as [|i todo [Hi [word Hword]] _ IH]; intros embedding w Hdraws.
  - exists embedding, w. split; [done|]. split; [done|]. split; [done|].
    intros i Hin. by apply elem_of_nil in Hin.
  - apply NoDup_cons in Hnodup as [Hfresh Hnodup].
    specialize (IH Hnodup).
    assert (Hstep : ∃ row w1,
      fill_embedding tokenizer idx (i :: todo) embedding w
      = fill_embedding tokenizer idx todo (<[Z.to_nat (i - 1) := row]> embedding) w1
      ∧ row_of tokenizer idx s0 i row
      ∧ draws_from s0 (np_random w1)).
    { cbn [fill_embedding]. rewrite Hword.
      destruct (idx !! word ≫= broadcast) as [row|] eqn:Hrow.
      - exists row, w. split; [done|]. split; [|done]. exists word. by rewrite Hrow.
      - destruct (Huniform (np_random w) EMBEDDING_SIZE) as [Hlen _].
        pose proof (draws_more s0 _ Hdraws) as Hnext.
        destruct (uniform (np_random w) (-1) 1 EMBEDDING_SIZE) as [v s] eqn:Hdraw.
        cbn [fst snd] in Hlen, Hnext.
        rewrite (broadcast_full v Hlen).
        exists v, (set_np_random w s). split; [done|]. split; [|done].
        exists word. split; [done|]. rewrite Hrow.
        exists (np_random w). split; [done|]. by rewrite Hdraw. }
    destruct Hstep as (row & w1 & -> & Hrow & Hdraws1).
    destruct (IH (<[Z.to_nat (i - 1) := row]> embedding) w1 Hdraws1)
      as (final & w' & Hfill & Hlen & Hframe & Hrows).
    exists final, w'. split; [done|]. rewrite length_insert in Hlen.
    split; [done|]. split.
    + intros j Hj. apply not_elem_of_cons in Hj as [Hne Hj].
      rewrite (Hframe j Hj). apply list_lookup_insert_ne. lia.
    + intros i' [->|Hin]%elem_of_cons Hbound.
      * exists row. split; [|done].
        rewrite Hframe by (replace (Z.of_nat (Z.to_nat (i - 1)) + 1) with i by lia; done).
        by apply list_lookup_insert_eq.
      * apply Hrows; [done|]. by rewrite length_insert.
Qed.

Lemma fill_embedding_key_error tokenizer idx todo embedding (w : World) :
  uniform_spec →
  Exists (fun i => Keras.index_word tokenizer !! i = None) todo →
  (fill_embedding tokenizer idx todo embedding w).1 = Raise KeyError.
Proof.
  intros Huniform Hmissing. revert embedding w.
  induction todo as [|i todo IH]; intros embedding w.
  - by apply Exists_nil in Hmissing.
  - cbn [fill_embedding].
    destruct (Keras.index_word tokenizer !! i) as [word|] eqn:Hword; [|done].
    apply Exists_cons in Hmissing as [Hi|Hmissing]; [congruence|].
    destruct (idx !! word ≫= broadcast) as [row|]; [by apply IH|].
    destruct (Huniform (np_random w) EMBEDDING_SIZE) as [Hlen _].
    destruct (uniform _ _ _ _) as [v s]. simpl in Hlen.
    rewrite (broadcast_full v Hlen). by apply IH.
Qed.
End embeddings.

Lemma VOCAB_SIZE_nonneg : 0 ≤ VOCAB_SIZE.
Proof. unfold VOCAB_SIZE. lia. Qed.

Lemma np_empty_length `{Runtime} (rows cols : nat) : length (np_empty rows cols) = rows.
Proof. unfold np_empty. by rewrite length_fmap, length_seq. Qed.

Section embedding_matrix.
Context `{Runtime}.

Lemma get_embedding_matrix_unfold tokenizer (w : World) lines idx :
  embedding_txt w = Some lines →
  read_embeddings lines ∅ = Ok idx →
  get_embedding_matrix tokenizer w
  = fill_embedding tokenizer idx (seqZ 1 VOCAB_SIZE)
      (np_empty (Z.to_nat VOCAB_SIZE) 50) w.
Proof.
  intros Htxt Hread. unfold get_embedding_matrix, mbind, io_mbind, io_bind, io_read.
  by rewrite Htxt, Hread.
Qed.

Lemma get_embedding_matrix_spec tokenizer (w : World) lines idx :
  uniform_spec →
  embedding_txt w = Some lines →
  read_embeddings lines ∅ = Ok idx →
  (∀ i, 1 ≤ i ≤ VOCAB_SIZE → is_Some (Keras.index_word tokenizer !! i)) →
  ∃ embedding, (get_embedding_matrix tokenizer w).1 = Ok embedding
    ∧ length embedding = Z.to_nat VOCAB_SIZE
    ∧ ∀ i, 1 ≤ i ≤ VOCAB_SIZE →
        ∃ row, embedding !! Z.to_nat (i - 1) = Some row
               ∧ row_of tokenizer idx (np_random w) i row.
Proof.
  intros Huniform Htxt Hread Hcover.
  rewrite (get_embedding_matrix_unfold _ _ _ _ Htxt Hread).
  destruct (fill_embedding_spec tokenizer idx (seqZ 1 VOCAB_SIZE)
              (np_empty (Z.to_nat VOCAB_SIZE) 50) w (np_random w) Huniform)
    as (embedding & w' & -> & Hlen & _ & Hrows).
  { constructor. }
  { apply NoDup_seqZ. }
  { apply Forall_forall. intros i Hi%elem_of_seqZ. split; [lia|]. apply Hcover. lia. }
  rewrite np_empty_length in Hlen, Hrows.
  exists embedding. split; [done|]. split; [done|].
  intros i Hi. apply Hrows; [apply elem_of_seqZ|]; lia.
Qed.
End embedding_matrix.

Lemma parse_line_fields `{Runtime} line word values v :
  Py.split line = word :: values →
  mapM float32_of_string values = Some v →
  parse_line line = Ok (word, v).
Proof. intros Hsplit Hvalues. unfold parse_line. by rewrite Hsplit, Hvalues. Qed.

(** C1. Let the embedding file be read without an error, let NumPy's
    generator keep its contract, and let the tokenizer know a word for every
    index from 1 to [VOCAB_SIZE]. Then [get_embedding_matrix] returns a
    matrix of [VOCAB_SIZE] lines of [EMBEDDING_SIZE] entries. When the word
    of index [i] heads a line of the file, and the last such line is the
    word followed by [EMBEDDING_SIZE] literals, the line [i - 1] of the
    matrix is the list of the float32 values of these literals. When the
    word heads no line, the line [i - 1] is what
    [np.random.uniform(-1, 1, (EMBEDDING_SIZE))] returned in a state that
    the generator reached from its state at the call by such draws, and
    every entry of it is in [[-1, 1)]. *)
Theorem get_embedding_matrix_rows `{Runtime} (tokenizer : Keras.Tokenizer)
    (w : World) (lines : list string) :
  uniform_spec →
  embedding_txt w = Some lines →
  is_ok (read_embeddings lines ∅) = true →
  (∀ i, 1 ≤ i ≤ VOCAB_SIZE → is_Some (Keras.index_word tokenizer !! i)) →
  ∃ embedding, (get_embedding_matrix tokenizer w).1 = Ok embedding
    ∧ Z.of_nat (length embedding) = VOCAB_SIZE
    ∧ Forall (fun row => length row = EMBEDDING_SIZE) embedding
    ∧ ∀ i word, 1 ≤ i ≤ VOCAB_SIZE → Keras.index_word tokenizer !! i = Some word →
        ∃ row, embedding !! Z.to_nat (i - 1) = Some row
          ∧ (∀ pre line post values v,
               lines = pre ++ line :: post →
               Py.split line = word :: values →
               mapM float32_of_string values = Some v →
               length v = EMBEDDING_SIZE →
               Forall (fun l => line_word l ≠ Some word) post →
               row = v)
          ∧ (Forall (fun l => line_word l ≠ Some word) lines →
             ∃ s, draws_from (np_random w) s
                  ∧ row = (uniform s (-1) 1 EMBEDDING_SIZE).1
                  ∧ Forall (fun x => in_unit_interval x = true) row).
Proof.
  intros Huniform Htxt Hread Hcover.
  destruct (read_embeddings lines ∅) as [idx|] eqn:Hidx; [clear Hread|done].
  destruct (get_embedding_matrix_spec tokenizer w lines idx Huniform Htxt Hidx Hcover)
    as (embedding & Hget & Hlen & Hrows).
  exists embedding. split; [done|]. split; [pose proof VOCAB_SIZE_nonneg; lia|]. split.
  - apply Forall_lookup. intros j row Hj.
    assert (Hbound : (j < Z.to_nat VOCAB_SIZE)%nat).
    { rewrite <- Hlen. by eapply lookup_lt_Some. }
    destruct (Hrows (Z.of_nat j + 1)) as (row' & Hrow' & word & _ & Hrow); [lia|].
    replace (Z.to_nat (Z.of_nat j + 1 - 1)) with j in Hrow' by lia.
    assert (row' = row) as -> by congruence.
    destruct (idx !! word ≫= broadcast) as [r|] eqn:Hr.
    + subst row. apply bind_Some in Hr as (v & _ & Hr). by eapply broadcast_length.
    + destruct Hrow as (s & _ & ->). apply Huniform.
  - intros i word Hi Hword.
    destruct (Hrows i Hi) as (row & Hrow & word' & Hword' & Hspec).
    assert (word' = word) as -> by congruence.
    exists row. split; [done|]. split.
    + intros pre line post values v -> Hsplit Hvalues Hv Hpost.
      pose proof (parse_line_fields line word values v Hsplit Hvalues) as Hline.
      rewrite (read_embeddings_last _ _ _ _ _ _ _ Hidx Hline Hpost) in Hspec.
      simpl in Hspec. by rewrite (broadcast_full v Hv) in Hspec.
    + intros Habsent.
      rewrite (read_embeddings_absent _ _ _ _ Hidx Habsent), lookup_empty in Hspec.
      destruct Hspec as (s & Hs & ->). exists s. split; [done|]. split; [done|].
      apply Huniform.
Qed.

Lemma sample_uniform_spec : @uniform_spec Sample.runtime.
Proof.
  intros s n. simpl. split; [apply length_replicate|].
  apply Forall_replicate. reflexivity.
Qed.

(** The sample words are tokens of their own, all distinct. *)
Lemma sample_letters_token p :
  Py.lower (Sample.letters p) = Sample.letters p
  ∧ Keras.translate (Sample.letters p) = Sample.letters p
  ∧ Py.pieces Keras.is_split (Sample.letters p) = [Sample.letters p].
Proof.
  induction p as [p (Hlower & Htranslate & Hpieces)
                 |p (Hlower & Htranslate & Hpieces)|]; [| |done];
    cbn [Sample.letters Py.lower Keras.translate Py.pieces];
    rewrite Hlower, Htranslate, Hpieces; done.
Qed.

Lemma sample_letters_sequence p :
  Keras.text_to_word_sequence (Sample.letters p) = [Sample.letters p].
Proof.
  unfold Keras.text_to_word_sequence.
  destruct (sample_letters_token p) as (-> & -> & ->).
  by destruct p.
Qed.

Lemma sample_letters_inj p q : Sample.letters p = Sample.letters q → p = q.
Proof.
  revert q. induction p as [p IH|p IH|]; intros [q|q|]; simpl; intros [=]; f_equal; auto.
Qed.

Lemma sample_words_NoDup : NoDup Sample.words.
Proof.
  unfold Sample.words. apply NoDup_fmap_2_strong; [|apply NoDup_seq].
  intros m n _ _ Heq. apply sample_letters_inj in Heq. lia.
Qed.

Lemma sample_vocabulary_size : Z.of_nat (size (vocabulary Sample.words)) = VOCAB_SIZE.
Proof.
  assert (Htokens : Sample.words ≫= Keras.text_to_word_sequence = Sample.words).
  { unfold Sample.words. induction (seq 0 (Z.to_nat VOCAB_SIZE)) as [|n l IH]; [done|].
    rewrite fmap_cons, bind_cons, IH, sample_letters_sequence. done. }
  unfold vocabulary. rewrite Htokens, size_list_to_set by apply sample_words_NoDup.
  unfold Sample.words. rewrite length_fmap, length_seq.
  pose proof VOCAB_SIZE_nonneg. lia.
Qed.

Lemma vocabulary_cons text corpus : vocabulary corpus ⊆ vocabulary (text :: corpus).
Proof.
  unfold vocabulary. rewrite bind_cons, list_to_set_app_L. apply union_subseteq_r.
Qed.

Lemma sample_corpus_size : VOCAB_SIZE ≤ Z.of_nat (size (vocabulary Sample.corpus)).
Proof.
  rewrite <- sample_vocabulary_size.
  apply inj_le, subseteq_size, vocabulary_cons.
Qed.

Lemma sample_tokenizer_covers i :
  1 ≤ i ≤ VOCAB_SIZE → is_Some (Keras.index_word (get_tokenizer Sample.corpus) !! i).
Proof.
  intros Hi. unfold get_tokenizer. rewrite fit_on_texts_index_word.
  fold (get_tokenizer Sample.corpus).
  rewrite get_tokenizer_word_counts. pose proof sample_corpus_size. lia.
Qed.

(** The first words of the sample corpus, which has no token twice. *)
Lemma sample_corpus_tokens :
  Sample.corpus ≫= Keras.text_to_word_sequence
  = "the"%string :: "cat"%string :: Sample.words.
Proof.
  assert (Htokens : Sample.words ≫= Keras.text_to_word_sequence = Sample.words).
  { unfold Sample.words. induction (seq 0 (Z.to_nat VOCAB_SIZE)) as [|n l IH]; [done|].
    rewrite fmap_cons, bind_cons, IH, sample_letters_sequence. done. }
  unfold Sample.corpus. rewrite bind_cons, Htokens. reflexivity.
Qed.

Lemma sample_corpus_NoDup : NoDup ("the"%string :: "cat"%string :: Sample.words).
Proof.
  assert (Hthe : ∀ p, Sample.letters p ≠ "the"%string) by (by intros [p|p|]).
  assert (Hcat : ∀ p, Sample.letters p ≠ "cat"%string) by (by intros [[p|p|]|p|]).
  apply NoDup_cons. split; [|apply NoDup_cons; split; [|apply sample_words_NoDup]].
  - intros [[=]|Hin]%elem_of_cons.
    apply list_elem_of_fmap in Hin as (n & Hn & _). by eapply Hthe.
  - intros Hin. apply list_elem_of_fmap in Hin as (n & Hn & _). by eapply Hcat.
Qed.

Lemma sample_index_word (i : Z) (w : string) :
  1 ≤ i →
  ("the"%string :: "cat"%string :: Sample.words) !! Z.to_nat (i - 1) = Some w →
  Keras.index_word (get_tokenizer Sample.corpus) !! i = Some w.
Proof.
  intros Hi Hw. apply get_tokenizer_first_seen; [|done|].
  - rewrite sample_corpus_tokens. apply sample_corpus_NoDup.
  - by rewrite sample_corpus_tokens.
Qed.

Lemma sample_words_first : Sample.words !! 0%nat = Some "a"%string.
Proof.
  unfold Sample.words. rewrite list_lookup_fmap, lookup_seq_lt; [done|].
  unfold VOCAB_SIZE. lia.
Qed.

Lemma get_embedding_matrix_rows_witness :
  ∃ embedding,
    (get_embedding_matrix (get_tokenizer Sample.corpus) Sample.world).1 = Ok embedding
    ∧ Z.of_nat (length embedding) = VOCAB_SIZE
    ∧ Forall (fun row => length row = EMBEDDING_SIZE) embedding
    ∧ embedding !! 0%nat = Some (replicate 50 1%float)
    ∧ embedding !! 1%nat = Some (replicate 50 0.5%float)
    ∧ embedding !! 2%nat = Some (replicate 50 (-0.5)%float).
Proof.
  assert (Hread : is_ok (@read_embeddings Sample.runtime Sample.glove ∅) = true).
  { vm_compute. reflexivity. }
  destruct (get_embedding_matrix_rows (get_tokenizer Sample.corpus) Sample.world
              Sample.glove sample_uniform_spec eq_refl Hread sample_tokenizer_covers)
    as (embedding & Hget & Hlen & Hshape & Hrows).
  exists embedding. split; [done|]. split; [done|]. split; [done|].
  assert (Hlast : Forall (fun l => line_word l ≠ Some "the"%string)
                    ["sat " +:+ Py.join " " (replicate (EMBEDDING_SIZE - 2) "1")]).
  { constructor; [|constructor]. vm_compute. discriminate. }
  split; [|split].
  - destruct (Hrows 1 "the"%string) as (row & Hrow & Hvector & _);
      [unfold VOCAB_SIZE; lia | by apply sample_index_word |].
    change (Z.to_nat (1 - 1)) with 0%nat in Hrow. rewrite Hrow. f_equal.
    apply (Hvector ["the " +:+ Sample.coefs "0"; "cat " +:+ Sample.coefs "0.5"]
             ("the " +:+ Sample.coefs "1")
             ["sat " +:+ Py.join " " (replicate (EMBEDDING_SIZE - 2) "1")]
             (replicate 50 "1"%string) (replicate 50 1%float));
      [reflexivity | vm_compute; reflexivity | vm_compute; reflexivity | reflexivity | done].
  - destruct (Hrows 2 "cat"%string) as (row & Hrow & Hvector & _);
      [unfold VOCAB_SIZE; lia | by apply sample_index_word |].
    change (Z.to_nat (2 - 1)) with 1%nat in Hrow. rewrite Hrow. f_equal.
    apply (Hvector ["the " +:+ Sample.coefs "0"]
             ("cat " +:+ Sample.coefs "0.5")
             ["the " +:+ Sample.coefs "1";
              "sat " +:+ Py.join " " (replicate (EMBEDDING_SIZE - 2) "1")]
             (replicate 50 "0.5"%string) (replicate 50 0.5%float));
      [reflexivity | vm_compute; reflexivity | vm_compute; reflexivity | reflexivity |].
    repeat constructor; vm_compute; discriminate.
  - destruct (Hrows 3 "a"%string) as (row & Hrow & _ & Hdraw);
      [unfold VOCAB_SIZE; lia | apply sample_index_word; [lia | apply sample_words_first] |].
    change (Z.to_nat (3 - 1)) with 2%nat in Hrow. rewrite Hrow. f_equal.
    destruct Hdraw as (s & _ & -> & _); [|reflexivity].
    repeat constructor; vm_compute; discriminate.
Defined.

(** C8. Let the embedding file be read without an error and NumPy's
    generator keep its contract. For a tokenizer fitted on a corpus of
    fewer than [VOCAB_SIZE] distinct tokens the call of
    [get_embedding_matrix] ends with [KeyError]; for one fitted on at
    least [VOCAB_SIZE] distinct tokens it returns a matrix of [VOCAB_SIZE]
    lines. *)
Theorem get_embedding_matrix_key_error `{Runtime} (corpus : list string)
    (w : World) (lines : list string) :
  uniform_spec →
  embedding_txt w = Some lines →
  is_ok (read_embeddings lines ∅) = true →
  let tokenizer := get_tokenizer corpus in
  (Z.of_nat (size (vocabulary corpus)) < VOCAB_SIZE →
   (get_embedding_matrix tokenizer w).1 = Raise KeyError)
  ∧ (VOCAB_SIZE ≤ Z.of_nat (size (vocabulary corpus)) →
     ∃ embedding, (get_embedding_matrix tokenizer w).1 = Ok embedding
                  ∧ Z.of_nat (length embedding) = VOCAB_SIZE).
Proof.
  intros Huniform Htxt Hread tokenizer.
  destruct (read_embeddings lines ∅) as [idx|] eqn:Hidx; [clear Hread|done].
  assert (Hknown : ∀ i, is_Some (Keras.index_word tokenizer !! i)
                        ↔ 1 ≤ i ≤ Z.of_nat (size (vocabulary corpus))).
  { intros i. unfold tokenizer, get_tokenizer.
    rewrite fit_on_texts_index_word. fold (get_tokenizer corpus).
    by rewrite get_tokenizer_word_counts. }
  split; intros Hsize.
  - rewrite (get_embedding_matrix_unfold _ _ _ _ Htxt Hidx).
    apply fill_embedding_key_error; [done|].
    apply Exists_exists. exists (Z.of_nat (size (vocabulary corpus)) + 1). split.
    + apply elem_of_seqZ. lia.
    + apply eq_None_not_Some. rewrite Hknown. lia.
  - destruct (get_embedding_matrix_spec tokenizer w lines idx Huniform Htxt Hidx)
      as (embedding & Hget & Hlen & _).
    { intros i Hi. apply Hknown. lia. }
    exists embedding. split; [done|]. pose proof VOCAB_SIZE_nonneg. lia.
Qed.

Lemma get_embedding_matrix_key_error_witness :
  (get_embedding_matrix (get_tokenizer ["the cat sat"; "the cat"]) Sample.world).1
  = Raise KeyError
  ∧ ∃ embedding,
      (get_embedding_matrix (get_tokenizer Sample.corpus) Sample.world).1 = Ok embedding
      ∧ Z.of_nat (length embedding) = VOCAB_SIZE.
Proof.
  split.
  - apply (get_embedding_matrix_key_error ["the cat sat"; "the cat"]
             Sample.world Sample.glove).
    + apply sample_uniform_spec.
    + reflexivity.
    + vm_compute. reflexivity.
    + vm_compute. reflexivity.
  - apply (get_embedding_matrix_key_error Sample.corpus Sample.world Sample.glove).
    + apply sample_uniform_spec.
    + reflexivity.
    + vm_compute. reflexivity.
    + apply sample_corpus_size.
Defined.

(** ** The batch feeder *)

(** With a buffer size, the stages of [input_fn] and their checks. *)
Lemma input_fn_stages features labels batch_size buffer_size :
  input_fn features labels batch_size (Some buffer_size)
  = match labels with
    | Some l =>
        if (length features =? length l)%nat then
          if (0 <? buffer_size) || (buffer_size =? -2) then
            if 0 <? batch_size then
              Ok (TfData.BatchOf
                    (TfData.RepeatOf
                       (TfData.ShuffleOf
                          (TfData.SlicesOf (TfData.FeaturesLabels features l))
                          buffer_size 0))
                    batch_size)
            else Raise InvalidArgumentError
          else Raise InvalidArgumentError
        else Raise ValueError
    | None =>
        if 0 <? batch_size then
          Ok (TfData.BatchOf (TfData.SlicesOf (TfData.Features features)) batch_size)
        else Raise InvalidArgumentError
    end.
Proof.
  unfold input_fn, TfData.from_tensor_slices, TfData.shuffle, TfData.repeat, TfData.batch.
  destruct labels as [l|]; cbn [mbind result_mbind rbind].
  - destruct (length features =? length l)%nat; [|done].
    rewrite bool_decide_eq_true_2 by eauto. cbn [rbind].
    destruct ((0 <? buffer_size) || (buffer_size =? -2)); done.
  - rewrite bool_decide_eq_false_2 by (by intros []). done.
Qed.

(** C10. [input_fn] raises the assertion error, and builds no dataset,
    exactly when [buffer_size] is [None]: whatever the features, the batch
    size and the labels, [None] included. *)
Theorem input_fn_asserts_buffer_size (features : list (list Z))
    (labels : option (list Z)) (batch_size : Z) (buffer_size : option Z) :
  input_fn features labels batch_size buffer_size = Raise AssertionError
  ↔ buffer_size = None.
Proof.
  destruct buffer_size as [b|]; [|done].
  rewrite input_fn_stages.
  destruct labels as [l|]; repeat case_match; split; done.
Qed.






(** * Further properties *)

(** ** The alphabet of a cleaned text *)

Lemma every_app p s t : every p (s +:+ t) = every p s && every p t.
Proof.
  induction s as [|c s IH]; [done|].
  simpl. rewrite IH. apply andb_assoc.
Qed.

Lemma every_impl (p q : ascii → bool) s :
  (∀ c, p c = true → q c = true) → every p s = true → every q s = true.
Proof.
  intros Hpq. induction s as [|c s IH]; [done|]. simpl.
  intros [Hc Hs]%andb_prop. by rewrite (Hpq c Hc), IH.
Qed.

Lemma app_cons c s t : String c s +:+ t = String c (s +:+ t).
Proof. reflexivity. Qed.

Lemma app_assoc_string s t u : (s +:+ t) +:+ u = s +:+ (t +:+ u).
Proof. induction s as [|c s IH]; [done|]. by rewrite !app_cons, IH. Qed.

(** What a match leaves is the end of the text. *)
Lemma rep_greedy_rest {R} p min n s (k : string → option R) x :
  Re.rep_greedy p min n s k = Some x →
  ∃ pre rest, s = pre +:+ rest ∧ k rest = Some x.
Proof.
  revert n. induction s as [|c s IH]; intros n; cbn [Re.rep_greedy].
  - destruct (min <=? n)%nat; [|done]. intros Hk. by exists EmptyString, EmptyString.
  - intros Hmatch.
    assert (Hstop : (if (min <=? n)%nat then k (String c s) else None) = Some x →
                    ∃ pre rest, String c s = pre +:+ rest ∧ k rest = Some x).
    { destruct (min <=? n)%nat; [|done]. intros Hk. by exists EmptyString, (String c s). }
    destruct (p c); [|auto].
    destruct (Re.rep_greedy p min (S n) s k) as [y|] eqn:Hrec; [|auto].
    injection Hmatch as ->.
    destruct (IH _ Hrec) as (pre & rest & -> & Hk).
    by exists (String c pre), rest.
Qed.

Lemma strip_prefix_rest l s rest :
  Re.strip_prefix l s = Some rest → s = l +:+ rest.
Proof.
  revert s. induction l as [|a l IH]; intros [|b s]; simpl; try done.
  - by intros [= <-].
  - by intros [= <-].
  - destruct (Ascii.eqb_spec a b) as [->|]; [|done]. by intros ->%IH.
Qed.

Lemma match_k_rest {R} r s (k : string → option R) x :
  Re.match_k r s k = Some x →
  ∃ pre rest, s = pre +:+ rest ∧ k rest = Some x.
Proof.
  revert s k. induction r as [p|l|c|min p|r1 IH1 r2 IH2|r1 IH1 r2 IH2];
    intros s k; cbn [Re.match_k].
  - destruct s as [|c s]; [done|]. destruct (p c); [|done].
    intros Hk. by exists (String c EmptyString), s.
  - destruct (Re.strip_prefix l s) as [s'|] eqn:Hl; [|done].
    intros Hk. exists l, s'. by rewrite (strip_prefix_rest _ _ _ Hl).
  - intros Hmatch.
    assert (Hskip : k s = Some x → ∃ pre rest, s = pre +:+ rest ∧ k rest = Some x).
    { intros Hk. by exists EmptyString, s. }
    destruct s as [|c' s']; [auto|].
    destruct (Ascii.eqb c c'); [|auto].
    destruct (k s') as [y|] eqn:Hk; [|auto].
    injection Hmatch as ->. by exists (String c' EmptyString), s'.
  - apply rep_greedy_rest.
  - intros (pre1 & s1 & -> & (pre2 & rest & -> & Hk)%IH2)%IH1.
    exists (pre1 +:+ pre2), rest. by rewrite app_assoc_string.
  - destruct (Re.match_k r1 s k) as [y|] eqn:H1.
    + intros [= ->]. by apply IH1.
    + apply IH2.
Qed.

Lemma match_at_rest r s rest :
  Re.match_at r s = Some rest → ∃ pre, s = pre +:+ rest.
Proof.
  intros (pre & rest' & -> & [= ->])%match_k_rest. by exists pre.
Qed.

Lemma length_app_string s t :
  String.length (s +:+ t) = (String.length s + String.length t)%nat.
Proof. induction s as [|c s IH]; [done|]. simpl. by rewrite IH. Qed.

Lemma substring_app_prefix pre rest :
  String.substring 0 (String.length pre) (pre +:+ rest) = pre.
Proof.
  induction pre as [|c pre IH]; simpl.
  - by destruct rest.
  - by rewrite IH.
Qed.

Lemma matched_app pre rest : Re.matched (pre +:+ rest) rest = pre.
Proof.
  unfold Re.matched. rewrite length_app_string.
  replace (_ + _ - _)%nat with (String.length pre) by lia.
  apply substring_app_prefix.
Qed.

(** A substitution keeps a class of characters when the replacements are
    of that class. *)
Lemma sub_from_every (q : ascii → bool) fuel r repl s :
  (∀ t rest, every q t = true → Re.match_at r t = Some rest →
             every q (repl (Re.matched t rest)) = true) →
  every q s = true →
  every q (Re.sub_from fuel r repl s) = true.
Proof.
  intros Hrepl. revert s. induction fuel as [|fuel IH]; intros s Hs.
  - by destruct s.
  - destruct s as [|c s']; [done|]. cbn [Re.sub_from].
    assert (Hcopy : every q (String c (Re.sub_from fuel r repl s')) = true).
    { simpl in *. apply andb_prop in Hs as [-> Hs]. by apply IH. }
    destruct (Re.match_at r (String c s')) as [rest|] eqn:Hmatch; [|done].
    destruct (Re.matched (String c s') rest) as [|a m] eqn:Hm; [done|].
    rewrite every_app, <- Hm, (Hrepl _ _ Hs Hmatch). simpl.
    apply IH. apply match_at_rest in Hmatch as [pre Hpre].
    rewrite Hpre, every_app in Hs. by apply andb_prop in Hs as [_ ?].
Qed.

Lemma sub_every (q : ascii → bool) r repl s :
  every q repl = true → every q s = true → every q (Re.sub r repl s) = true.
Proof. intros Hrepl. by apply sub_from_every. Qed.

(** A property of every character, checked on the 256 of them. *)
Lemma ascii_forall (f : ascii → bool) :
  forallb f (ascii_of_nat <$> seq 0 256) = true → ∀ c, f c = true.
Proof.
  intros Hall c. rewrite forallb_forall in Hall. apply Hall.
  rewrite <- (ascii_nat_embedding c). apply in_map, in_seq.
  pose proof (nat_ascii_bounded c). lia.
Qed.

Lemma every_impl_check (p q : ascii → bool) s :
  forallb (fun c => implb (p c) (q c)) (ascii_of_nat <$> seq 0 256) = true →
  every p s = true → every q s = true.
Proof.
  intros Hcheck. apply every_impl. intros c Hp.
  pose proof (ascii_forall _ Hcheck c) as Hc. simpl in Hc. by rewrite Hp in Hc.
Qed.

(** A substitution for a pattern of one character of the class [p]: the
    characters left are those outside [p] and those of the replacement. *)
Lemma sub_single_every (q q' p : ascii → bool) r repl s :
  (∀ c t, Re.match_at r (String c t) = if p c then Some t else None) →
  forallb (fun c => implb (q c && negb (p c)) (q' c)) (ascii_of_nat <$> seq 0 256) = true →
  every q' repl = true →
  every q s = true →
  every q' (Re.sub r repl s) = true.
Proof.
  intros Hr Hcheck Hrepl. unfold Re.sub, Re.sub_with.
  assert (Hfuel : ∀ fuel s, (String.length s ≤ fuel)%nat → every q s = true →
                   every q' (Re.sub_from fuel r (fun _ => repl) s) = true);
    [|by apply Hfuel].
  clear s. intros fuel. induction fuel as [|fuel IH]; intros s Hlen Hs.
  - destruct s; [done | simpl in Hlen; lia].
  - destruct s as [|c s']; [done|]. cbn [Re.sub_from]. simpl in Hlen, Hs.
    apply andb_prop in Hs as [Hc Hs']. rewrite Hr.
    destruct (p c) eqn:Hp.
    + replace (Re.matched (String c s') s') with (String c EmptyString)
        by (symmetry; apply (matched_app (String c EmptyString) s')).
      rewrite every_app, Hrepl. apply IH; [lia | done].
    + simpl. rewrite IH by (done || lia).
      pose proof (ascii_forall _ Hcheck c) as Hq. simpl in Hq.
      rewrite Hc, Hp in Hq. simpl in Hq. by rewrite Hq.
Qed.

Lemma match_at_Chr p c t :
  Re.match_at (Re.Chr p) (String c t) = if p c then Some t else None.
Proof. reflexivity. Qed.

Lemma match_at_Lit1 a c t :
  Re.match_at (Re.Lit (String a EmptyString)) (String c t)
  = if Ascii.eqb a c then Some t else None.
Proof. unfold Re.match_at. simpl. by destruct (Ascii.eqb a c). Qed.

(** A literal with a character outside a class does not match a text of
    that class. *)
Lemma sub_lit_every (q : ascii → bool) l repl s :
  every q repl = true ∨ every q l = false →
  every q s = true →
  every q (Re.sub (Re.Lit l) repl s) = true.
Proof.
  intros Hcase. apply sub_from_every. intros t rest Ht Hmatch.
  destruct Hcase as [Hrepl|Hl]; [done|].
  unfold Re.match_at in Hmatch. simpl in Hmatch.
  destruct (Re.strip_prefix l t) as [t'|] eqn:Hprefix; [|done].
  apply strip_prefix_rest in Hprefix as ->.
  rewrite every_app, Hl in Ht. done.
Qed.

Lemma digits_k_no_match (q : ascii → bool) t :
  forallb (fun c => implb (q c) (negb (Py.isdigit c))) (ascii_of_nat <$> seq 0 256) = true →
  every q t = true → Re.match_at digits_k t = None.
Proof.
  intros Hcheck Ht. destruct t as [|c t]; [done|].
  simpl in Ht. apply andb_prop in Ht as [Hc _].
  pose proof (ascii_forall _ Hcheck c) as Hq. simpl in Hq. rewrite Hc in Hq.
  unfold Re.match_at, digits_k. cbn [Re.match_k Re.rep_greedy].
  apply negb_true_iff in Hq. by rewrite Hq.
Qed.

Lemma sub_with_digits_k_every (q : ascii → bool) s :
  forallb (fun c => implb (q c) (negb (Py.isdigit c))) (ascii_of_nat <$> seq 0 256) = true →
  every q s = true →
  every q (Re.sub_with digits_k thousands s) = true.
Proof.
  intros Hcheck. apply sub_from_every. intros t rest Ht Hmatch.
  by rewrite (digits_k_no_match q t Hcheck Ht) in Hmatch.
Qed.

Lemma lower_every s : every not_upper (Py.lower s) = true.
Proof.
  induction s as [|c s IH]; [done|]. simpl. rewrite IH.
  by rewrite (ascii_forall (fun c => not_upper (Py.lower_char c))).
Qed.

Lemma pieces_every (q : ascii → bool) sep s :
  every q s = true → Forall (fun w => every q w = true) (Py.pieces sep s).
Proof.
  induction s as [|c s IH]; simpl.
  - by repeat constructor.
  - intros [Hc Hs]%andb_prop. specialize (IH Hs).
    destruct (sep c); [by constructor|].
    destruct IH as [|w ws Hw Hws]; constructor; simpl; try done.
    + by rewrite Hc.
    + by rewrite Hc, Hw.
Qed.

Lemma join_cons sep w w' l :
  Py.join sep (w :: w' :: l) = w +:+ sep +:+ Py.join sep (w' :: l).
Proof. reflexivity. Qed.

Lemma join_every (q : ascii → bool) sep l :
  every q sep = true → Forall (fun w => every q w = true) l →
  every q (Py.join sep l) = true.
Proof.
  intros Hsep. induction 1 as [|w [|w' l] Hw Hl IH]; [done|done|].
  by rewrite join_cons, !every_app, Hw, Hsep, IH.
Qed.

Lemma lstrip_every (q : ascii → bool) s :
  every q s = true → every q (Py.lstrip s) = true.
Proof.
  induction s as [|c s IH]; [done|]. cbn [Py.lstrip].
  destruct (Py.isspace c); [|done]. simpl. intros [_ Hs]%andb_prop. auto.
Qed.

Lemma rstrip_every (q : ascii → bool) s :
  every q s = true → every q (Py.rstrip s) = true.
Proof.
  induction s as [|c s IH]; [done|]. cbn [Py.rstrip every].
  intros [Hc Hs]%andb_prop. specialize (IH Hs).
  destruct (Py.rstrip s) as [|d r].
  - destruct (Py.isspace c); [done|]. simpl. by rewrite Hc.
  - cbn [every]. rewrite Hc. done.
Qed.

Lemma strip_every (q : ascii → bool) s :
  every q s = true → every q (Py.strip s) = true.
Proof. intros Hs. by apply rstrip_every, lstrip_every. Qed.

Lemma filter_Forall {A} (P : A → Prop) f (l : list A) :
  Forall P l → Forall P (List.filter f l).
Proof.
  induction 1 as [|x l Hx Hl IH]; simpl; [done|].
  destruct (f x); [by constructor | done].
Qed.

(** One substitution of [text_to_wordlist]: of a literal that keeps the
    class of the text, and of a single character that leaves it. *)
Ltac lit_step := apply sub_lit_every; [first [left; reflexivity | right; reflexivity]|].
Ltac single_step q :=
  apply (sub_single_every q _ _ _ _ _ (match_at_Lit1 _)); [vm_compute; reflexivity | reflexivity |].

(** Without stemming, what [text_to_wordlist] returns is made of the
    characters of a cleaned text. *)
Lemma text_to_wordlist_clean `{Runtime} (world : World) (text : PyObj)
    (remove_stopwords : bool) (s : string) :
  text_to_wordlist world text remove_stopwords false = Ok s →
  every clean_char s = true.
Proof.
  unfold text_to_wordlist.
  set (words := Py.split (Py.lower _)).
  assert (Hwords : Forall (fun w => every not_upper w = true) words).
  { apply filter_Forall, pieces_every, lower_every. }
  clearbody words.
  set (kept_words := if remove_stopwords then _ else _).
  assert (Hkept : ∀ ws, kept_words = Ok ws → Forall (fun w => every not_upper w = true) ws).
  { unfold kept_words. destruct remove_stopwords; [|by intros ws [= <-]].
    destruct (nltk_stopwords world); [|done]. intros ws [= <-]. by apply filter_Forall. }
  destruct kept_words as [ws|]; [|done]. specialize (Hkept ws eq_refl).
  cbn [mbind result_mbind rbind]. intros [= <-].
  apply strip_every.
  apply sub_every; [reflexivity|].
  do 8 lit_step.
  apply sub_with_digits_k_every; [vm_compute; reflexivity|].
  single_step (clean_or ["'"%char]).
  do 4 lit_step.
  single_step (clean_or ["'"; "/"]%char).
  lit_step.
  single_step (clean_or ["'"; "/"; "."]%char).
  single_step (clean_or ["'"; "/"; "."; ","]%char).
  do 10 lit_step.
  apply (sub_single_every (fun c => not_upper c && negb (Py.isdigit c)) _ _ _ _ _
           (match_at_Chr _)); [vm_compute; reflexivity | reflexivity |].
  apply (sub_single_every not_upper _ _ _ _ _ (match_at_Chr _));
    [vm_compute; reflexivity | reflexivity |].
  apply sub_every; [reflexivity|].
  by apply join_every.
Qed.

(** X1. Without stemming, every character of the text that
    [text_to_wordlist] returns is a lowercase letter from [a] to [z], a
    space, or one of the marks [! + - : ; < = ^]: no digit, no capital, no
    apostrophe, comma, period or slash is left, whatever the text and
    whether or not the stop words are removed. *)
Theorem text_to_wordlist_alphabet `{Runtime} (world : World) (text : PyObj)
    (remove_stopwords : bool) (s : string) :
  text_to_wordlist world text remove_stopwords false = Ok s →
  every clean_char s = true.
Proof. apply text_to_wordlist_clean. Qed.

Lemma text_to_wordlist_alphabet_witness :
  every clean_char "i cannot wait it so good ! email k" = true.
Proof.
  apply (text_to_wordlist_alphabet Sample.world
           (PyStr "@bob I can't wait, it's SO good! http://t.co/x e-mail 10k") false).
  vm_compute. reflexivity.
Defined.

(** ** The spacing of a cleaned text *)

(** [\s{n,}] matches the blanks a text starts with when there are [n] of
    them or more. *)
Lemma rep_greedy_blanks min n s :
  Re.rep_greedy Py.isspace min n s Some
  = if (min <=? n + leading_blanks s)%nat then Some (Py.lstrip s) else None.
Proof.
  revert n. induction s as [|c s IH]; intros n; cbn [Re.rep_greedy leading_blanks Py.lstrip].
  - by rewrite Nat.add_0_r.
  - destruct (Py.isspace c).
    + rewrite IH. replace (S n + leading_blanks s)%nat with (n + S (leading_blanks s))%nat by lia.
      destruct (Nat.leb_spec min (n + S (leading_blanks s))); [done|].
      destruct (Nat.leb_spec min n); [lia | done].
    + by rewrite Nat.add_0_r.
Qed.

Lemma lstrip_length s :
  (String.length (Py.lstrip s) + leading_blanks s = String.length s)%nat.
Proof.
  induction s as [|c s IH]; [done|]. cbn [Py.lstrip leading_blanks].
  destruct (Py.isspace c); simpl; lia.
Qed.

Lemma lstrip_starts s : starts_blank (Py.lstrip s) = false.
Proof.
  induction s as [|c s IH]; [done|]. cbn [Py.lstrip].
  destruct (Py.isspace c) eqn:Hc; [done|]. simpl. done.
Qed.

(** After [re.sub(r"\s{2,}", " ", s)] no two blanks follow each other. *)
Lemma sub_blank_runs_from fuel s :
  (String.length s ≤ fuel)%nat →
  let out := Re.sub_from fuel (Re.Rep 2 Py.isspace) (fun _ => " "%string) s in
  starts_blank out = starts_blank s ∧ no_blank_run out = true.
Proof.
  revert s. induction fuel as [|fuel IH]; intros s Hlen.
  - destruct s; [done | simpl in Hlen; lia].
  - destruct s as [|c s']; [done|]. cbn [Re.sub_from]. simpl in Hlen.
    unfold Re.match_at. cbn [Re.match_k]. rewrite rep_greedy_blanks.
    destruct (Nat.leb_spec 2 (0 + leading_blanks (String c s'))) as [Hrun|Hrun].
    + pose proof (lstrip_length (String c s')) as Hstrip.
      unfold Re.matched.
      destruct (String.length (String c s') - String.length (Py.lstrip (String c s')))%nat
        as [|n] eqn:Hn; [lia|].
      cbn [String.substring]. cbv zeta beta. rewrite !app_cons.
      destruct (IH (Py.lstrip (String c s'))) as [Hstart Hrest]; [simpl in *; lia|].
      cbn [starts_blank no_blank_run String.app].
      change ("" +:+ ?x) with x.
      rewrite Hstart, lstrip_starts, Hrest.
      cbn [leading_blanks] in Hrun.
      destruct (Py.isspace c); [split; reflexivity | simpl in Hrun; lia].
    + destruct (IH s') as [Hstart Hrest]; [lia|].
      cbn [starts_blank no_blank_run]. rewrite Hstart, Hrest. split; [done|].
      cbn [leading_blanks] in Hrun. destruct (Py.isspace c); [|done].
      destruct (starts_blank s') eqn:Hs'; [|done].
      destruct s' as [|d s'']; [done|]. simpl in Hs', Hrun. rewrite Hs' in Hrun. lia.
Qed.

Lemma sub_blank_runs s :
  no_blank_run (Re.sub (Re.Rep 2 Py.isspace) " " s) = true.
Proof. by apply sub_blank_runs_from. Qed.

Lemma lstrip_no_blank_run s :
  no_blank_run s = true → no_blank_run (Py.lstrip s) = true.
Proof.
  induction s as [|c s IH]; [done|]. cbn [Py.lstrip].
  destruct (Py.isspace c); [|done]. simpl. intros [_ Hs]%andb_prop. auto.
Qed.

Lemma rstrip_starts s : starts_blank s = false → starts_blank (Py.rstrip s) = false.
Proof.
  destruct s as [|c s]; [done|]. cbn [Py.rstrip starts_blank]. intros Hc.
  destruct (Py.rstrip s); rewrite ?Hc; done.
Qed.

Lemma rstrip_ends s : ends_blank (Py.rstrip s) = false.
Proof.
  induction s as [|c s IH]; [done|]. cbn [Py.rstrip].
  destruct (Py.rstrip s) as [|d r].
  - destruct (Py.isspace c) eqn:Hc; [done|]. simpl. done.
  - done.
Qed.

Lemma rstrip_starts_blank s :
  starts_blank (Py.rstrip s) = true → starts_blank s = true.
Proof.
  destruct s as [|c s]; [done|]. cbn [Py.rstrip].
  destruct (Py.rstrip s); [destruct (Py.isspace c) eqn:Hc|]; simpl; congruence.
Qed.

Lemma rstrip_no_blank_run s :
  no_blank_run s = true → no_blank_run (Py.rstrip s) = true.
Proof.
  induction s as [|c s IH]; [done|]. cbn [no_blank_run].
  intros [Hc Hs]%andb_prop. specialize (IH Hs). cbn [Py.rstrip].
  pose proof (rstrip_starts_blank s) as Hstart.
  destruct (Py.rstrip s) as [|d r] eqn:Hr.
  - destruct (Py.isspace c); [done|]. simpl. by rewrite andb_false_r.
  - change (negb (Py.isspace c && starts_blank (String d r)) && no_blank_run (String d r) = true).
    rewrite IH, andb_true_r.
    destruct (starts_blank (String d r)); [|by rewrite andb_false_r].
    by rewrite Hstart in Hc.
Qed.

Lemma pieces_not_nil sep s : Py.pieces sep s ≠ [].
Proof.
  destruct s as [|c s]; [done|]. simpl.
  destruct (sep c); [done|]. by destruct (Py.pieces sep s).
Qed.

(** The pieces of a text whose blanks are spaces, joined by a space, are
    the text. *)
Lemma join_pieces s :
  every (fun c => implb (Py.isspace c) (Ascii.eqb c " ")) s = true →
  Py.join " " (Py.pieces Py.isspace s) = s.
Proof.
  induction s as [|c s IH]; [done|]. cbn [every Py.pieces].
  intros [Hc Hs]%andb_prop. specialize (IH Hs).
  pose proof (pieces_not_nil Py.isspace s) as Hnil.
  destruct (Py.isspace c).
  - simpl in Hc. apply Ascii.eqb_eq in Hc as ->.
    destruct (Py.pieces Py.isspace s) as [|w ws]; [done|].
    by rewrite join_cons, IH.
  - destruct (Py.pieces Py.isspace s) as [|w [|w' ws]]; [done| |].
    + simpl in *. by rewrite IH.
    + rewrite join_cons in *. by rewrite app_cons, IH.
Qed.

(** A text without a blank at its ends and without two blanks in a row has
    no empty piece. *)
Lemma pieces_nonempty s :
  s ≠ EmptyString → no_blank_run s = true → ends_blank s = false →
  Forall (fun w => Py.nonempty w = true) (tail (Py.pieces Py.isspace s))
  ∧ (starts_blank s = false → Forall (fun w => Py.nonempty w = true) (Py.pieces Py.isspace s)).
Proof.
  induction s as [|c s IH]; [done|]. intros _. cbn [no_blank_run Py.pieces starts_blank].
  intros [Hc Hs]%andb_prop Hend.
  pose proof (pieces_not_nil Py.isspace s) as Hnil.
  destruct (Py.isspace c) eqn:Hblank.
  - simpl in Hc. apply negb_true_iff in Hc.
    destruct s as [|d s']; [simpl in Hend; congruence|].
    destruct IH as [_ IH]; [done..|]. split; [|done]. by apply IH.
  - destruct s as [|d s'].
    + simpl. split; [done|]. intros _. by repeat constructor.
    + destruct IH as [IH _]; [done..|].
      destruct (Py.pieces Py.isspace (String d s')) as [|w ws]; [done|].
      simpl in IH. split; [done|]. intros _. by constructor.
Qed.

Lemma filter_all {A} (f : A → bool) (l : list A) :
  Forall (fun x => f x = true) l → List.filter f l = l.
Proof. induction 1 as [|x l Hx _ IH]; simpl; [done|]. by rewrite Hx, IH. Qed.

Lemma join_split s :
  every (fun c => implb (Py.isspace c) (Ascii.eqb c " ")) s = true →
  no_blank_run s = true → starts_blank s = false → ends_blank s = false →
  Py.join " " (Py.split s) = s.
Proof.
  intros Hspaces Hrun Hstart Hend. destruct s as [|c s]; [done|].
  unfold Py.split. rewrite filter_all; [by apply join_pieces|].
  by apply pieces_nonempty.
Qed.

Lemma Ok_inj {A} (a b : A) : Ok a = Ok b → a = b.
Proof. by intros [= ->]. Qed.

Lemma text_to_wordlist_strip `{Runtime} (world : World) text remove_stopwords stem_words s :
  text_to_wordlist world text remove_stopwords stem_words = Ok s →
  ∃ t, s = Py.strip t
       ∧ (stem_words = false → ∃ u, t = Re.sub (Re.Rep 2 Py.isspace) " " u).
Proof.
  unfold text_to_wordlist.
  destruct (if remove_stopwords then _ else _) as [ws|]; [|done].
  cbn [mbind result_mbind rbind]. intros <-%Ok_inj.
  destruct stem_words.
  - eexists. split; [reflexivity|]. done.
  - eexists. split; [reflexivity|]. intros _. eexists. reflexivity.
Qed.

(** X2. The text that [text_to_wordlist] returns neither starts nor ends
    with a blank, whatever the flags. Without stemming its words are
    separated by one space each: splitting it and joining the words with a
    space gives the text back. *)
Theorem text_to_wordlist_spacing `{Runtime} (world : World) (text : PyObj)
    (remove_stopwords stem_words : bool) (s : string) :
  text_to_wordlist world text remove_stopwords stem_words = Ok s →
  starts_blank s = false ∧ ends_blank s = false
  ∧ (stem_words = false → Py.join " " (Py.split s) = s).
Proof.
  intros Hs. destruct (text_to_wordlist_strip _ _ _ _ _ Hs) as (t & -> & Ht).
  split; [apply rstrip_starts, lstrip_starts|]. split; [apply rstrip_ends|].
  intros ->. destruct (Ht eq_refl) as [u ->].
  pose proof (text_to_wordlist_clean _ _ _ _ Hs) as Hclean.
  apply join_split.
  - revert Hclean. apply every_impl_check. vm_compute. reflexivity.
  - apply rstrip_no_blank_run, lstrip_no_blank_run, sub_blank_runs.
  - apply rstrip_starts, lstrip_starts.
  - apply rstrip_ends.
Qed.

Lemma text_to_wordlist_spacing_witness :
  starts_blank "i cannot wait it so good ! email k" = false
  ∧ ends_blank "i cannot wait it so good ! email k" = false
  ∧ (false = false →
     Py.join " " (Py.split "i cannot wait it so good ! email k")
     = "i cannot wait it so good ! email k"%string).
Proof.
  refine (text_to_wordlist_spacing Sample.world
            (PyStr "@bob I can't wait, it's SO good! http://t.co/x e-mail 10k") false false
            "i cannot wait it so good ! email k" _).
  vm_compute. reflexivity.
Defined.

(** ** Blank texts and the case of the letters *)

Lemma lower_isspace s : every Py.isspace s = true → Py.lower s = s.
Proof.
  induction s as [|c s IH]; [done|]. simpl. intros [Hc Hs]%andb_prop.
  rewrite (IH Hs). f_equal.
  pose proof (ascii_forall
    (fun c => implb (Py.isspace c) (Ascii.eqb (Py.lower_char c) c)) eq_refl c) as Hl.
  simpl in Hl. rewrite Hc in Hl. by apply Ascii.eqb_eq.
Qed.

Lemma split_blank s : every Py.isspace s = true → Py.split s = [].
Proof.
  unfold Py.split. induction s as [|c s IH]; [done|]. simpl.
  intros [-> Hs]%andb_prop. simpl. auto.
Qed.

(** X3. A text that is empty or made of blanks only is cleaned to the
    empty text (and not to ["unk"], which only replaces a value that is not
    a string), whatever the flags, as long as the stop words are not asked
    for or are installed. *)
Theorem text_to_wordlist_blank `{Runtime} (world : World) (text : string)
    (remove_stopwords stem_words : bool) :
  every Py.isspace text = true →
  remove_stopwords = false ∨ is_Some (nltk_stopwords world) →
  text_to_wordlist world (PyStr text) remove_stopwords stem_words = Ok ""%string.
Proof.
  intros Hblank Hstops. unfold text_to_wordlist.
  rewrite (lower_isspace _ Hblank), (split_blank _ Hblank).
  destruct Hstops as [-> | [words ->]].
  - by destruct stem_words.
  - by destruct remove_stopwords, stem_words.
Qed.

Lemma text_to_wordlist_blank_witness :
  text_to_wordlist Sample.world_nltk (PyStr "  ") true true = Ok ""%string.
Proof.
  apply (text_to_wordlist_blank Sample.world_nltk "  " true true).
  - reflexivity.
  - right. eexists. reflexivity.
Defined.

Lemma lower_lower s : Py.lower (Py.lower s) = Py.lower s.
Proof.
  induction s as [|c s IH]; [done|]. simpl. rewrite IH. f_equal.
  apply Ascii.eqb_eq.
  apply (ascii_forall (fun c => Ascii.eqb (Py.lower_char (Py.lower_char c)) (Py.lower_char c))).
  vm_compute. reflexivity.
Qed.

(** X4. The result of [text_to_wordlist] does not depend on the case of
    the letters of the text: the text and its lowercase form are cleaned to
    the same result, for all flags and in every world. *)
Theorem text_to_wordlist_ignores_case `{Runtime} (world : World) (text : string)
    (remove_stopwords stem_words : bool) :
  text_to_wordlist world (PyStr (Py.lower text)) remove_stopwords stem_words
  = text_to_wordlist world (PyStr text) remove_stopwords stem_words.
Proof. unfold text_to_wordlist. by rewrite lower_lower. Qed.

(** ** The frames of the corpus loader *)

Lemma clean_text_rows `{Runtime} (w : World) (df : list (Pd.Row PyObj)) df' :
  clean_text w df = Ok df' → Forall2 (cleaned_row w id) df df'.
Proof.
  revert df'. induction df as [|r df IH]; intros df'.
  - intros <-%Ok_inj. constructor.
  - unfold clean_text. cbn [traverse mbind result_mbind rbind].
    destruct (text_to_wordlist w (Pd.text r) false false) as [t|] eqn:Ht; [|done].
    cbn [rbind]. fold (clean_text w df).
    destruct (clean_text w df) as [df1|]; [|done]. cbn [rbind].
    intros <-%Ok_inj. constructor; [|by apply IH].
    by repeat split.
Qed.

Lemma load_data_rows `{Runtime} (w : World) df inf_df :
  load_data w = Ok (df, inf_df) →
  ∃ raw raw_inf, train_csv w = Some raw ∧ test_csv w = Some raw_inf
    ∧ Forall2 (cleaned_row w (Pd.replace 4 1)) raw df
    ∧ Forall2 (cleaned_row w id) raw_inf inf_df.
Proof.
  unfold load_data.
  destruct (train_csv w) as [raw|]; [|done].
  destruct (test_csv w) as [raw_inf|]; [|done].
  destruct (clean_text w raw) as [df1|] eqn:Hdf; [|done].
  destruct (clean_text w raw_inf) as [inf1|] eqn:Hinf; [|done].
  cbn [rbind]. intros [= <- <-]. exists raw, raw_inf.
  split; [done|]. split; [done|]. split; [|by apply clean_text_rows].
  apply Forall2_fmap_r. eapply Forall2_impl; [by apply clean_text_rows|].
  intros r c (Ht & Htarget & Hrest). split; [done|]. split; [|done].
  simpl. by rewrite Htarget.
Qed.

(** X5. The two frames that [load_data] returns have the lines of the two
    CSV files, in their order: in each line the text is the text cleaned by
    [text_to_wordlist] with its default flags and the columns [ids],
    [date], [flag] and [user] are unchanged. The targets of the training
    frame go through the replacement of 4 by 1; those of the inference
    frame are unchanged, a 4 included. *)
Theorem load_data_frames `{Runtime} (w : World) df inf_df :
  load_data w = Ok (df, inf_df) →
  ∃ raw raw_inf, train_csv w = Some raw ∧ test_csv w = Some raw_inf
    ∧ Forall2 (cleaned_row w (Pd.replace 4 1)) raw df
    ∧ Forall2 (cleaned_row w id) raw_inf inf_df.
Proof. apply load_data_rows. Qed.

Lemma load_data_frames_witness :
  match load_data Sample.world with
  | Ok (df, inf_df) =>
      ∃ raw raw_inf, train_csv Sample.world = Some raw ∧ test_csv Sample.world = Some raw_inf
        ∧ Forall2 (cleaned_row Sample.world (Pd.replace 4 1)) raw df
        ∧ Forall2 (cleaned_row Sample.world id) raw_inf inf_df
  | Raise _ => False
  end.
Proof.
  destruct (load_data Sample.world) as [[df inf_df]|e] eqn:Hload.
  - exact (load_data_frames Sample.world df inf_df Hload).
  - vm_compute in Hload. discriminate Hload.
Defined.

(** ** The words the tokenizer learns from cleaned texts *)

Lemma lower_clean s : every clean_char s = true → Py.lower s = s.
Proof.
  induction s as [|c s IH]; [done|]. simpl. intros [Hc Hs]%andb_prop.
  rewrite (IH Hs). f_equal.
  pose proof (ascii_forall
    (fun c => implb (clean_char c) (Ascii.eqb (Py.lower_char c) c)) eq_refl c) as Hl.
  simpl in Hl. rewrite Hc in Hl. by apply Ascii.eqb_eq.
Qed.

Lemma translate_clean s :
  every clean_char s = true →
  every (fun c => lowercase_letter c || Keras.is_split c) (Keras.translate s) = true.
Proof.
  induction s as [|c s IH]; [done|]. simpl. intros [Hc Hs]%andb_prop.
  rewrite (IH Hs), andb_true_r.
  pose proof (ascii_forall
    (fun c => implb (clean_char c)
       (let d := if Keras.is_filter c then " "%char else c in
        lowercase_letter d || Keras.is_split d)) eq_refl c) as Hl.
  simpl in Hl. by rewrite Hc in Hl.
Qed.

Lemma pieces_letters (p sep : ascii → bool) s :
  every (fun c => p c || sep c) s = true →
  Forall (fun w => every p w = true) (Py.pieces sep s).
Proof.
  induction s as [|c s IH]; simpl.
  - by repeat constructor.
  - intros [Hc Hs]%andb_prop. specialize (IH Hs).
    destruct (sep c) eqn:Hsep; [by constructor|].
    rewrite orb_false_r in Hc.
    destruct IH as [|w ws Hw Hws]; constructor; simpl; try done.
    + by rewrite Hc.
    + by rewrite Hc, Hw.
Qed.

Lemma text_to_word_sequence_clean text :
  every clean_char text = true →
  Forall (fun w => every lowercase_letter w = true ∧ w ≠ EmptyString)
         (Keras.text_to_word_sequence text).
Proof.
  intros Hclean. unfold Keras.text_to_word_sequence.
  rewrite (lower_clean _ Hclean).
  pose proof (pieces_letters _ _ _ (translate_clean _ Hclean)) as Hpieces.
  induction Hpieces as [|w ws Hw _ IH]; simpl; [done|].
  destruct w; simpl; [done|]. constructor; [|done]. done.
Qed.

Lemma vocabulary_elem word corpus :
  word ∈ vocabulary corpus ↔ ∃ text, text ∈ corpus ∧ word ∈ Keras.text_to_word_sequence text.
Proof.
  unfold vocabulary. rewrite elem_of_list_to_set, list_elem_of_bind. naive_solver.
Qed.

Lemma Forall2_elem_r {A B} (R : A → B → Prop) l k y :
  Forall2 R l k → y ∈ k → ∃ x, x ∈ l ∧ R x y.
Proof.
  induction 1 as [|a b l k Hab _ IH]; [by intros ?%elem_of_nil|].
  intros [->|Hin]%elem_of_cons.
  - exists a. split; [left | done].
  - destruct (IH Hin) as (x & Hx & HR). exists x. split; [by right | done].
Qed.

(** X6. Every token that the tokenizer's splitter finds in a text of the
    frames returned by [load_data] is a non-empty word of lowercase
    letters from [a] to [z]: the marks that the cleaning sets apart by
    spaces are all filtered out by the tokenizer. *)
Theorem load_data_vocabulary `{Runtime} (w : World) df inf_df (word : string) :
  load_data w = Ok (df, inf_df) →
  word ∈ vocabulary (Pd.text <$> df) ∨ word ∈ vocabulary (Pd.text <$> inf_df) →
  every lowercase_letter word = true ∧ word ≠ EmptyString.
Proof.
  intros (raw & raw_inf & _ & _ & Hdf & Hinf)%load_data_rows Hword.
  assert (Hclean : ∀ (relabel : Z → Z) rows frame,
    Forall2 (cleaned_row w relabel) rows frame →
    word ∈ vocabulary (Pd.text <$> frame) →
    every lowercase_letter word = true ∧ word ≠ EmptyString).
  { intros relabel rows frame Hrows (text & Htext & Hin)%vocabulary_elem.
    apply list_elem_of_fmap in Htext as (c & -> & Hc).
    destruct (Forall2_elem_r _ _ _ _ Hrows Hc) as (r & _ & Ht & _).
    apply text_to_wordlist_clean in Ht.
    pose proof (text_to_word_sequence_clean _ Ht) as Hall.
    rewrite Forall_forall in Hall. by apply Hall. }
  destruct Hword; eauto.
Qed.

Lemma load_data_vocabulary_witness :
  every lowercase_letter "cat" = true ∧ "cat"%string ≠ EmptyString.
Proof.
  eapply (load_data_vocabulary Sample.world _ _ "cat").
  - vm_compute. reflexivity.
  - left. apply vocabulary_elem. exists "the cat sat"%string. split.
    + cbn. do 3 right. left.
    + vm_compute. right. left.
Defined.

(** ** The two dictionaries of a fitted tokenizer *)

(** X7. The two dictionaries of the tokenizer returned by
    [get_tokenizer] are inverse of each other; [word_index] knows exactly
    the tokens of the corpus, and [index_word] exactly the indices from 1
    to the number of distinct tokens. *)
Theorem get_tokenizer_dictionaries (corpus : list string) :
  let tokenizer := get_tokenizer corpus in
  (∀ w i, Keras.word_index tokenizer !! w = Some i ↔ Keras.index_word tokenizer !! i = Some w)
  ∧ (∀ w, is_Some (Keras.word_index tokenizer !! w) ↔ w ∈ vocabulary corpus)
  ∧ (∀ i, is_Some (Keras.index_word tokenizer !! i)
          ↔ 1 ≤ i ≤ Z.of_nat (size (vocabulary corpus))).
Proof.
  intros tokenizer. split; [|split].
  - intros w i. unfold tokenizer.
    by rewrite get_tokenizer_word_index, get_tokenizer_index_word.
  - intros w. destruct (get_tokenizer_sorted_voc corpus) as [Hnd <-].
    rewrite list_elem_of_lookup. split.
    + intros [i [_ Hi]%get_tokenizer_word_index]. eauto.
    + intros [k Hk]. exists (Z.of_nat k + 1). apply get_tokenizer_word_index.
      split; [lia|]. by replace (Z.to_nat (Z.of_nat k + 1 - 1)) with k by lia.
  - intros i. unfold tokenizer, get_tokenizer.
    rewrite fit_on_texts_index_word. fold (get_tokenizer corpus).
    by rewrite get_tokenizer_word_counts.
Qed.

(** ** The order of the indices *)

Lemma bump_count_of w v wc :
  count_of w (Keras.bump v wc) = count_of w wc + (if String.eqb v w then 1 else 0).
Proof.
  induction wc as [|[u n] wc IH]; simpl.
  - destruct (String.eqb v w); lia.
  - destruct (String.eqb_spec u v) as [->|Huv]; simpl.
    + destruct (String.eqb_spec v w); lia.
    + destruct (String.eqb_spec u w) as [->|Huw]; [|done].
      destruct (String.eqb_spec v w); [congruence | lia].
Qed.

Lemma count_words_count_of w ws wc :
  count_of w (foldl (fun wc w => Keras.bump w wc) wc ws)
  = count_of w wc + Z.of_nat (length (List.filter (String.eqb w) ws)).
Proof.
  revert wc. induction ws as [|v ws IH]; intros wc; simpl; [lia|].
  rewrite IH, bump_count_of, (String.eqb_sym w v).
  destruct (String.eqb v w); simpl; lia.
Qed.

Lemma filter_app_length {A} (f : A → bool) l k :
  length (List.filter f (l ++ k))
  = (length (List.filter f l) + length (List.filter f k))%nat.
Proof. by rewrite List.filter_app, length_app. Qed.

Lemma count_texts_count_of w texts wc :
  count_of w (foldl Keras.count_text wc texts) = count_of w wc + occurrences w texts.
Proof.
  unfold occurrences. revert wc. induction texts as [|text texts IH]; intros wc.
  - simpl. lia.
  - cbn [foldl]. rewrite IH. unfold Keras.count_text. rewrite count_words_count_of.
    rewrite bind_cons, filter_app_length. lia.
Qed.

Lemma count_of_elem w n wc : NoDup wc.*1 → (w, n) ∈ wc → count_of w wc = n.
Proof.
  induction wc as [|[v m] wc IH]; [by intros _ ?%elem_of_nil|].
  rewrite fmap_cons. intros [Hfresh Hnodup]%NoDup_cons [[= -> ->]|Hin]%elem_of_cons; simpl.
  - by rewrite String.eqb_refl.
  - destruct (String.eqb_spec v w) as [->|_]; [|by apply IH].
    destruct Hfresh. apply list_elem_of_fmap. by exists (w, n).
Qed.

Lemma insert_desc_descending x l : descending l → descending (Keras.insert_desc x l).
Proof.
  induction l as [|y l IH]; simpl; [done|]. intros [Hy Hl].
  destruct (Z.ltb_spec x.2 y.2) as [Hlt|Hge]; simpl.
  - split; [|by apply IH]. rewrite insert_desc_perm. constructor; [lia | done].
  - split; [|done]. constructor; [done|].
    eapply Forall_impl; [exact Hy|]. simpl. lia.
Qed.

Lemma sort_desc_descending l : descending (Keras.sort_desc l).
Proof.
  induction l as [|x l IH]; simpl; [done|]. by apply insert_desc_descending.
Qed.

Lemma descending_lookup l (i j : nat) x y :
  descending l → l !! i = Some x → l !! j = Some y → (i < j)%nat → y.2 ≤ x.2.
Proof.
  revert i j. induction l as [|z l IH]; intros i j; [done|]. intros [Hz Hl] Hi Hj Hij.
  destruct j as [|j]; [lia|]. destruct i as [|i]; simpl in *.
  - injection Hi as ->. rewrite Forall_forall in Hz. apply Hz.
    by eapply list_elem_of_lookup_2.
  - eapply (IH i j); [done..|lia].
Qed.

(** X8. In the tokenizer returned by [get_tokenizer], [word_counts] gives
    for each word the number of its occurrences in the corpus, and a word
    with more occurrences than another has the smaller index. *)
Theorem get_tokenizer_frequent_first (corpus : list string) :
  let tokenizer := get_tokenizer corpus in
  (∀ w n, (w, n) ∈ Keras.word_counts tokenizer → n = occurrences w corpus)
  ∧ (∀ w1 w2 i1 i2,
       Keras.word_index tokenizer !! w1 = Some i1 →
       Keras.word_index tokenizer !! w2 = Some i2 →
       occurrences w2 corpus < occurrences w1 corpus →
       i1 < i2).
Proof.
  intros tokenizer.
  destruct (count_texts_keys corpus [] (NoDup_nil_2)) as [Hnd _].
  assert (Hcount : ∀ w n, (w, n) ∈ Keras.word_counts tokenizer → n = occurrences w corpus).
  { intros w n Hin. rewrite <- (count_of_elem w n _ Hnd Hin).
    by rewrite count_texts_count_of. }
  split; [done|].
  assert (Hpos : ∀ w i, Keras.word_index tokenizer !! w = Some i →
            1 ≤ i ∧ Keras.sort_desc (Keras.word_counts tokenizer) !! Z.to_nat (i - 1)
                    = Some (w, occurrences w corpus)).
  { intros w i [Hi Hw]%get_tokenizer_word_index. split; [done|].
    rewrite list_lookup_fmap in Hw.
    destruct (Keras.sort_desc _ !! _) as [[w' n]|] eqn:Hk; [|done].
    injection Hw as ->. f_equal. f_equal. apply Hcount.
    rewrite <- (sort_desc_perm (Keras.word_counts tokenizer)).
    by eapply list_elem_of_lookup_2. }
  intros w1 w2 i1 i2 [Hi1 Hk1]%Hpos [Hi2 Hk2]%Hpos Hmore.
  pose proof (sort_desc_descending (Keras.word_counts tokenizer)) as Hsorted.
  destruct (Z.lt_trichotomy i1 i2) as [Hlt | [-> | Hgt]]; [done | |].
  - rewrite Hk1 in Hk2. injection Hk2 as Hw Hn. lia.
  - pose proof (descending_lookup _ _ _ _ _ Hsorted Hk2 Hk1) as Hle. simpl in Hle. lia.
Qed.

(** ** The split of the training data *)

Lemma take_rows_cons {A} (a : list A) (i : nat) (idx : list nat) :
  Sklearn.take_rows a (i :: idx)
  = match a !! i with
    | Some x => x :: Sklearn.take_rows a idx
    | None => Sklearn.take_rows a idx
    end.
Proof. reflexivity. Qed.

Lemma take_rows_seq {A} (a : list A) (k n : nat) :
  Sklearn.take_rows a (seq k n) = take n (drop k a).
Proof.
  revert k. induction n as [|n IH]; intros k; [done|].
  change (seq k (S n)) with (k :: seq (S k) n). rewrite take_rows_cons, IH.
  destruct (a !! k) as [x|] eqn:Hk.
  - by rewrite (drop_S _ _ _ Hk).
  - apply lookup_ge_None in Hk. rewrite !drop_ge by lia. by rewrite !take_nil.
Qed.

Lemma take_rows_permutation {A} (a : list A) (perm : list nat) :
  perm ≡ₚ seq 0 (length a) → Sklearn.take_rows a perm ≡ₚ a.
Proof.
  intros Hperm. unfold Sklearn.take_rows. rewrite Hperm.
  fold (Sklearn.take_rows a (seq 0 (length a))).
  by rewrite take_rows_seq, drop_0, firstn_all.
Qed.

Lemma take_rows_length {A} (a : list A) (idx : list nat) :
  Forall (fun i => (i < length a)%nat) idx →
  length (Sklearn.take_rows a idx) = length idx.
Proof.
  induction 1 as [|i idx Hi _ IH]; [done|]. rewrite take_rows_cons.
  destruct (lookup_lt_is_Some_2 a i Hi) as [x ->]. simpl. by rewrite IH.
Qed.

Lemma take_rows_zip {A B} (a : list A) (b : list B) (idx : list nat) :
  length a = length b →
  Sklearn.take_rows (zip a b) idx
  = zip (Sklearn.take_rows a idx) (Sklearn.take_rows b idx).
Proof.
  intros Hlen. induction idx as [|i idx IH]; [done|]. rewrite !take_rows_cons, IH.
  destruct (a !! i) as [x|] eqn:Ha, (b !! i) as [y|] eqn:Hb.
  - by rewrite (proj2 (lookup_zip_Some a b i x y)).
  - apply lookup_lt_Some in Ha. apply lookup_ge_None in Hb. lia.
  - apply lookup_ge_None in Ha. apply lookup_lt_Some in Hb. lia.
  - destruct (zip a b !! i) as [[x y]|] eqn:Hz; [|done].
    apply lookup_zip_Some in Hz as [? ?]. congruence.
Qed.

(** The split for a permutation of the indices loses and repeats no line,
    and keeps every label with its line. *)
Lemma split_with_partition {A B} (perm : list nat) (a : list A) (b : list B) :
  perm ≡ₚ seq 0 (length a) → length b = length a →
  let '(a_train, a_test, b_train, b_test) := Sklearn.split_with perm a b in
  zip a_train b_train ++ zip a_test b_test ≡ₚ zip a b
  ∧ length a_test = Sklearn.n_test (length a)
  ∧ length a_train = (length a - Sklearn.n_test (length a))%nat
  ∧ length b_train = length a_train ∧ length b_test = length a_test.
Proof.
  intros Hperm Hlen. unfold Sklearn.split_with.
  set (n := length a). set (k := Sklearn.n_test n).
  assert (Hk : (k ≤ n)%nat).
  { unfold k, Sklearn.n_test. pose proof (Nat.Div0.div_lt_upper_bound (n + 3) 4 (n + 1)). lia. }
  assert (Hn : length perm = n).
  { rewrite Hperm. apply length_seq. }
  assert (Hrange : Forall (fun i => (i < n)%nat) perm).
  { rewrite Hperm. apply Forall_forall. intros i Hi%elem_of_seq. lia. }
  assert (Htrain : take (n - k) (drop k perm) = drop k perm).
  { apply take_ge. rewrite length_drop. lia. }
  rewrite Htrain.
  assert (Hlen_test : ∀ {C} (c : list C), length c = n →
            length (Sklearn.take_rows c (take k perm)) = k).
  { intros C c Hc. rewrite take_rows_length.
    - rewrite length_take. lia.
    - rewrite Hc. by apply Forall_take. }
  assert (Hlen_train : ∀ {C} (c : list C), length c = n →
            length (Sklearn.take_rows c (drop k perm)) = (n - k)%nat).
  { intros C c Hc. rewrite take_rows_length.
    - rewrite length_drop. lia.
    - rewrite Hc. by apply Forall_drop. }
  split.
  - rewrite <- !take_rows_zip by done.
    unfold Sklearn.take_rows. rewrite <- omap_app.
    rewrite (Permutation_app_comm (drop k perm)), take_drop.
    apply take_rows_permutation. rewrite Hperm.
    by rewrite length_zip, Hlen, Nat.min_id.
  - rewrite !Hlen_test, !Hlen_train by done. done.
Qed.

(** A first call of [get_data] that returns has loaded the frames, fitted
    the tokenizer on the training text and split the encoded lines. *)
Lemma get_data_fresh `{Runtime} (params : Params) (w w1 : World) t :
  Os.path_exists w (data_dir params) = false →
  get_data params w = (Ok t, w1) →
  ∃ df inf_df,
    load_data w = Ok (df, inf_df)
    ∧ let tokenizer := get_tokenizer (Pd.text <$> df) in
      let text := get_padded_sequences tokenizer (Pd.text <$> df) in
      length text = length (Pd.target <$> df)
      ∧ (0 < length text - Sklearn.n_test (length text))%nat
      ∧ let '(train_X, test_X, train_y, test_y) :=
          Sklearn.split_with (permutation (np_random w) (length text)).1
            text (Pd.target <$> df) in
        t = (train_X, train_y, test_X, test_y,
             get_padded_sequences tokenizer (Pd.text <$> inf_df), tokenizer).
Proof.
  intros Hdir. unfold get_data. rewrite Hdir.
  unfold mbind, io_mbind, io_bind, io_read.
  destruct (load_data w) as [[df inf_df]|]; [|done].
  intros Hget. exists df, inf_df. split; [done|]. cbv zeta.
  revert Hget. unfold Sklearn.train_test_split.
  set (text := get_padded_sequences _ (Pd.text <$> df)).
  destruct (Nat.eqb_spec (length (Pd.target <$> df)) (length text)) as [Hlen|_]; [|done].
  destruct (Nat.eqb_spec (length text - Sklearn.n_test (length text)) 0) as [|Hsize]; [done|].
  cbn [negb orb].
  destruct (permutation (np_random w) (length text)) as [perm s]. cbn [fst].
  destruct (Sklearn.split_with perm text (Pd.target <$> df))
    as [[[train_X test_X] train_y] test_y].
  unfold Os.makedirs. destruct (_ && _); [|done].
  unfold Os.write_file. cbn [fs set_fs].
  intros Hdone. split; [done|]. split; [lia|].
  destruct (_ !! Py.path_join _ _) as [[|]|]; [done| |]; by injection Hdone as <- _.
Qed.

Lemma cleaned_row_targets `{Runtime} (w : World) relabel rows frame :
  Forall2 (cleaned_row w relabel) rows frame →
  Pd.target <$> frame = relabel <$> (Pd.target <$> rows).
Proof.
  induction 1 as [|r c rows frame (_ & Htarget & _) _ IH]; [done|].
  by rewrite !fmap_cons, IH, Htarget.
Qed.

Lemma replace_4_1_not_4 (v : Z) : Pd.replace 4 1 v ≠ 4.
Proof. unfold Pd.replace. destruct (Z.eqb_spec v 4); lia. Qed.

(** X9. Let NumPy's [permutation] give permutations. When a call of
    [get_data] that does not find the directory returns, the tokenizer is
    the one fitted on the cleaned training text, the inference array is the
    encoding of the cleaned inference text, and the training and test
    arrays are a split of the encoded training lines with their labels: no
    line is lost or repeated and each keeps its label, the test set has
    [ceil(n / 4)] of the [n] lines and the training set the rest, which is
    at least one, and no label is 4. *)
Theorem get_data_first_run `{Runtime} (params : Params) (w w1 : World)
    (train_X test_X inf_text : list (list Z)) (train_y test_y : list Z)
    (tokenizer : Keras.Tokenizer) :
  permutation_spec →
  Os.path_exists w (data_dir params) = false →
  get_data params w = (Ok (train_X, train_y, test_X, test_y, inf_text, tokenizer), w1) →
  ∃ df inf_df,
    load_data w = Ok (df, inf_df)
    ∧ tokenizer = get_tokenizer (Pd.text <$> df)
    ∧ inf_text = get_padded_sequences tokenizer (Pd.text <$> inf_df)
    ∧ zip train_X train_y ++ zip test_X test_y
      ≡ₚ zip (get_padded_sequences tokenizer (Pd.text <$> df)) (Pd.target <$> df)
    ∧ length test_X = Sklearn.n_test (length df)
    ∧ length train_X = (length df - Sklearn.n_test (length df))%nat
    ∧ length train_y = length train_X ∧ length test_y = length test_X
    ∧ (0 < length train_X)%nat
    ∧ Forall (fun y => y ≠ 4) (train_y ++ test_y).
Proof.
  intros Hperm Hdir Hget.
  destruct (get_data_fresh params w w1 _ Hdir Hget) as (df & inf_df & Hload & Hlen & Hsize & Ht).
  exists df, inf_df. split; [done|].
  set (text := get_padded_sequences _ (Pd.text <$> df)) in *.
  pose proof (split_with_partition (permutation (np_random w) (length text)).1
                text (Pd.target <$> df) (Hperm _ _) (eq_sym Hlen)) as Hsplit.
  destruct (Sklearn.split_with _ text (Pd.target <$> df))
    as [[[train_X' test_X'] train_y'] test_y'].
  injection Ht as -> -> -> -> -> ->.
  destruct Hsplit as (Hzip & Htest & Htrain & Hytrain & Hytest).
  assert (Hrows : length text = length df).
  { by rewrite Hlen, length_fmap. }
  rewrite Hrows in *.
  do 3 (split; [done|]). do 4 (split; [done|]). split; [lia|].
  assert (Hlabels : train_y' ++ test_y' ≡ₚ Pd.target <$> df).
  { rewrite <- (snd_zip text (Pd.target <$> df)) by lia.
    rewrite <- Hzip, fmap_app, !snd_zip by lia. done. }
  rewrite Hlabels.
  apply load_data_rows in Hload as (raw & raw_inf & _ & _ & Hdf & _).
  rewrite (cleaned_row_targets _ _ _ _ Hdf).
  apply Forall_fmap, Forall_forall. intros v _. apply replace_4_1_not_4.
Qed.

Lemma sample_permutation_spec : @permutation_spec Sample.runtime.
Proof. intros s n. reflexivity. Qed.

Lemma get_data_first_run_witness :
  match get_data Sample.params Sample.world with
  | (Ok (train_X, train_y, test_X, test_y, inf_text, tokenizer), _) =>
      ∃ df inf_df,
        load_data Sample.world = Ok (df, inf_df)
        ∧ tokenizer = get_tokenizer (Pd.text <$> df)
        ∧ inf_text = get_padded_sequences tokenizer (Pd.text <$> inf_df)
        ∧ zip train_X train_y ++ zip test_X test_y
          ≡ₚ zip (get_padded_sequences tokenizer (Pd.text <$> df)) (Pd.target <$> df)
        ∧ length test_X = Sklearn.n_test (length df)
        ∧ length train_X = (length df - Sklearn.n_test (length df))%nat
        ∧ length train_y = length train_X ∧ length test_y = length test_X
        ∧ (0 < length train_X)%nat
        ∧ Forall (fun y => y ≠ 4) (train_y ++ test_y)
  | (Raise _, _) => False
  end.
Proof.
  destruct (get_data Sample.params Sample.world)
    as [[[[[[[train_X train_y] test_X] test_y] inf_text] tokenizer]|e] w1] eqn:Hfirst.
  - exact (get_data_first_run Sample.params Sample.world w1 train_X test_X inf_text
             train_y test_y tokenizer sample_permutation_spec eq_refl Hfirst).
  - vm_compute in Hfirst. discriminate Hfirst.
Defined.

(** ** What [get_data] reads and leaves alone *)

Lemma get_padded_sequences_length tokenizer text :
  length (get_padded_sequences tokenizer text) = length text.
Proof.
  unfold get_padded_sequences, Keras.pad_sequences, Keras.texts_to_sequences.
  by rewrite !length_fmap.
Qed.




Lemma clean_text_world `{Runtime} (w w' : World) df : clean_text w' df = clean_text w df.
Proof. reflexivity. Qed.

Lemma load_data_world `{Runtime} (w w' : World) :
  train_csv w' = train_csv w →
  match load_data w, load_data w' with
  | Ok (df, _), Ok (df', _) => df' = df
  | Raise e, Raise e' => (is_Some (test_csv w') ↔ is_Some (test_csv w)) → e' = e
  | _, _ => ¬ (is_Some (test_csv w') ↔ is_Some (test_csv w))
  end.
Proof.
  intros Htrain. unfold load_data. rewrite Htrain.
  destruct (train_csv w) as [raw|]; [|done].
  destruct (clean_text_ok w raw) as (df & Hdf & _).
  rewrite (clean_text_world w w' raw), Hdf. cbn [rbind].
  destruct (test_csv w) as [raw_inf|], (test_csv w') as [raw_inf'|]; try done.
  - destruct (clean_text_ok w raw_inf) as (inf_df & -> & _).
    destruct (clean_text_ok w' raw_inf') as (inf_df' & -> & _). done.
  - destruct (clean_text_ok w raw_inf) as (inf_df & -> & _).
    cbn [rbind]. intros [_ Hsome]. destruct Hsome as [x Hx]; [by eexists | done].
  - destruct (clean_text_ok w' raw_inf') as (inf_df' & -> & _).
    cbn [rbind]. intros [Hsome _]. destruct Hsome as [x Hx]; [by eexists | done].
Qed.

(** X11. The training and test arrays, their labels and the tokenizer
    that [get_data] returns do not depend on the content of the inference
    file, on the stop words or on the embedding file: in two worlds with the
    same files, generator and training CSV, where the inference CSV can
    either be read in both or in none, the two calls return the same five
    values, or raise the same error. *)
Theorem get_data_training_ignores_inference `{Runtime} (params : Params) (w w' : World) :
  fs w' = fs w → np_random w' = np_random w → train_csv w' = train_csv w →
  (is_Some (test_csv w') ↔ is_Some (test_csv w)) →
  match (get_data params w).1, (get_data params w').1 with
  | Ok (train_X, train_y, test_X, test_y, _, tokenizer),
    Ok (train_X', train_y', test_X', test_y', _, tokenizer') =>
      train_X' = train_X ∧ train_y' = train_y ∧ test_X' = test_X ∧ test_y' = test_y
      ∧ tokenizer' = tokenizer
  | Raise e, Raise e' => e' = e
  | _, _ => False
  end.
Proof.
  intros Hfs Hrandom Htrain Htest.
  pose proof (load_data_world w w' Htrain) as Hload.
  destruct w as [files rng stops train test emb],
           w' as [files' rng' stops' train' test' emb'].
  cbn [fs np_random train_csv test_csv] in Hfs, Hrandom, Htrain, Htest.
  subst files' rng' train'.
  unfold get_data, Os.path_exists. cbn [fs].
  destruct (bool_decide _).
  { unfold mbind, io_mbind, io_bind, Os.read_file. cbn [fs].
    destruct (files !! _) as [[|content]|]; [done| |done].
    by destruct (pickle_loads content) as [[[[[[? ?] ?] ?] ?] ?]|]. }
  unfold mbind, io_mbind, io_bind, io_read.
  destruct (load_data _) as [[df inf_df]|], (load_data _) as [[df' inf_df']|];
    [subst df'| done | done | by apply Hload].
  unfold Sklearn.train_test_split. cbn [np_random].
  destruct (negb _ || _); [done|].
  destruct (permutation _ _) as [perm s].
  destruct (Sklearn.split_with _ _ _) as [[[train_X test_X] train_y] test_y].
  unfold Os.makedirs, Os.path_exists. cbn [fs set_np_random].
  destruct (_ && _); [|done].
  unfold Os.write_file. cbn [fs set_fs set_np_random].
  by destruct (<[data_dir params:=Dir]> files !! _) as [[|content]|].
Qed.

Lemma get_data_training_ignores_inference_witness :
  match (get_data Sample.params Sample.world).1,
        (get_data Sample.params
           (@mkWorld Sample.runtime ∅ 0%nat (Some ["a"]) (Some Sample.tweets) (Some Sample.tweets) None)).1 with
  | Ok (train_X, train_y, test_X, test_y, _, tokenizer),
    Ok (train_X', train_y', test_X', test_y', _, tokenizer') =>
      train_X' = train_X ∧ train_y' = train_y ∧ test_X' = test_X ∧ test_y' = test_y
      ∧ tokenizer' = tokenizer
  | Raise e, Raise e' => e' = e
  | _, _ => False
  end.
Proof.
  apply (get_data_training_ignores_inference Sample.params Sample.world
           (@mkWorld Sample.runtime ∅ 0%nat (Some ["a"]) (Some Sample.tweets) (Some Sample.tweets) None));
    try reflexivity.
  split; intros _; by eexists.
Defined.

(** X12. With a training file of one line, a call of [get_data] that does
    not find the directory raises [ValueError], from the split whose
    training set would be empty, and leaves the world as it was: nothing is
    written. *)
Theorem get_data_single_row `{Runtime} (params : Params) (w : World) (r : Pd.Row PyObj) :
  Os.path_exists w (data_dir params) = false →
  train_csv w = Some [r] → is_Some (test_csv w) →
  get_data params w = (Raise ValueError, w).
Proof.
  intros Hdir Htrain [raw_inf Htest]. unfold get_data. rewrite Hdir.
  unfold mbind, io_mbind, io_bind, io_read.
  destruct (load_data_targets w [r] raw_inf Htrain Htest) as (df & inf_df & -> & Htargets & _).
  assert (Hlen : length df = 1%nat).
  { by rewrite <- (length_fmap Pd.target), Htargets. }
  unfold Sklearn.train_test_split.
  by rewrite get_padded_sequences_length, !length_fmap, Hlen.
Qed.

Lemma get_data_single_row_witness :
  get_data Sample.params
    (@mkWorld Sample.runtime ∅ 0%nat None (Some (take 1 Sample.tweets)) (Some Sample.tweets) None)
  = (Raise ValueError,
     @mkWorld Sample.runtime ∅ 0%nat None (Some (take 1 Sample.tweets)) (Some Sample.tweets) None).
Proof.
  apply (get_data_single_row Sample.params
           (@mkWorld Sample.runtime ∅ 0%nat None (Some (take 1 Sample.tweets)) (Some Sample.tweets) None)
           (Pd.mkRow 0 1 "Mon Apr 06" "NO_QUERY" "ann" (PyStr "@bob I can't wait, it's SO good!"))).
  - reflexivity.
  - reflexivity.
  - by eexists.
Defined.

(** ** More on the embedding loader *)

Section embedding_loop.
Context `{Runtime}.

Lemma set_np_random_same (w : World) : set_np_random w (np_random w) = w.
Proof. by destruct w. Qed.

(** The loop changes nothing in the world but the state of the generator,
    which goes on by draws. *)
Lemma fill_embedding_world tokenizer idx todo embedding (w : World) s0 :
  draws_from s0 (np_random w) →
  ∃ s, draws_from s0 s
       ∧ (fill_embedding tokenizer idx todo embedding w).2 = set_np_random w s.
Proof.
  revert embedding w. induction todo as [|i todo IH]; intros embedding w Hdraws.
  - exists (np_random w). by rewrite set_np_random_same.
  - cbn [fill_embedding].
    destruct (Keras.index_word tokenizer !! i) as [word|].
    2: { exists (np_random w). by rewrite set_np_random_same. }
    destruct (idx !! word ≫= broadcast) as [row|]; [by apply IH|].
    pose proof (draws_more s0 _ Hdraws) as Hnext.
    destruct (uniform (np_random w) (-1) 1 EMBEDDING_SIZE) as [v s].
    cbn [snd] in Hnext.
    destruct (broadcast v) as [row|]; [|by exists s].
    destruct (IH (<[Z.to_nat (i - 1) := row]> embedding) (set_np_random w s) Hnext)
      as (s' & Hs' & Hworld).
    exists s'. by rewrite Hworld.
Qed.

(** The loop reads the tokenizer through [index_word] at the indices it
    visits, and nowhere else. *)
Lemma fill_embedding_index_word tokenizer1 tokenizer2 idx todo embedding (w : World) :
  Forall (fun i => Keras.index_word tokenizer1 !! i = Keras.index_word tokenizer2 !! i) todo →
  fill_embedding tokenizer1 idx todo embedding w
  = fill_embedding tokenizer2 idx todo embedding w.
Proof.
  intros Hsame. revert embedding w.
  induction Hsame as [|i todo Hi _ IH]; intros embedding w; [done|].
  cbn [fill_embedding]. rewrite Hi.
  destruct (Keras.index_word tokenizer2 !! i) as [word|]; [|done].
  destruct (idx !! word ≫= broadcast) as [row|]; [apply IH|].
  destruct (uniform _ _ _ _) as [v s].
  destruct (broadcast v) as [row|]; [apply IH | done].
Qed.

Lemma get_embedding_matrix_cases tokenizer (w : World) :
  match embedding_txt w with
  | None => get_embedding_matrix tokenizer w = (Raise OSError, w)
  | Some lines =>
      match read_embeddings lines ∅ with
      | Raise e => get_embedding_matrix tokenizer w = (Raise e, w)
      | Ok idx =>
          get_embedding_matrix tokenizer w
          = fill_embedding tokenizer idx (seqZ 1 VOCAB_SIZE)
              (np_empty (Z.to_nat VOCAB_SIZE) 50) w
      end
  end.
Proof.
  unfold get_embedding_matrix, mbind, io_mbind, io_bind, io_read.
  destruct (embedding_txt w) as [lines|]; [|done].
  by destruct (read_embeddings lines ∅).
Qed.

Lemma parse_line_blank line :
  every Py.isspace line = true → parse_line line = Raise IndexError.
Proof. intros Hblank. unfold parse_line. by rewrite split_blank. Qed.

End embedding_loop.

(** X13. When the embedding file can be read, [get_embedding_matrix]
    changes nothing in the world but the state of NumPy's generator,
    whatever it returns or raises, and the state it leaves is one that the
    generator reaches from its state at the call by calls of
    [np.random.uniform(-1, 1, (EMBEDDING_SIZE))]. *)
Theorem get_embedding_matrix_footprint `{Runtime} (tokenizer : Keras.Tokenizer)
    (w : World) (lines : list string) :
  embedding_txt w = Some lines →
  ∃ s, draws_from (np_random w) s
       ∧ (get_embedding_matrix tokenizer w).2 = set_np_random w s.
Proof.
  intros Htxt.
  pose proof (get_embedding_matrix_cases tokenizer w) as Hcases. rewrite Htxt in Hcases.
  destruct (read_embeddings lines ∅) as [idx|e]; rewrite Hcases.
  - apply fill_embedding_world. constructor.
  - exists (np_random w). split; [constructor|]. by rewrite set_np_random_same.
Qed.

Lemma get_embedding_matrix_footprint_witness :
  ∃ s, draws_from (np_random Sample.world) s
       ∧ (get_embedding_matrix (get_tokenizer Sample.corpus) Sample.world).2
         = set_np_random Sample.world s.
Proof.
  apply (get_embedding_matrix_footprint (get_tokenizer Sample.corpus) Sample.world Sample.glove).
  reflexivity.
Defined.

(** X14. A line of the embedding file that cannot be parsed, after lines
    that can, makes [get_embedding_matrix] raise the error of that line,
    whatever the tokenizer, and leaves the world as it was; for an empty or
    blank line the error is [IndexError]. *)
Theorem get_embedding_matrix_malformed_line `{Runtime} (tokenizer : Keras.Tokenizer)
    (w : World) (pre post : list string) (line : string) :
  embedding_txt w = Some (pre ++ line :: post) →
  is_ok (read_embeddings pre ∅) = true →
  (every Py.isspace line = true →
   get_embedding_matrix tokenizer w = (Raise IndexError, w))
  ∧ (∀ e, parse_line line = Raise e → get_embedding_matrix tokenizer w = (Raise e, w)).
Proof.
  intros Htxt Hpre.
  assert (Hraise : ∀ e, parse_line line = Raise e →
            get_embedding_matrix tokenizer w = (Raise e, w)).
  { intros e Hline. pose proof (get_embedding_matrix_cases tokenizer w) as Hcases.
    rewrite Htxt, read_embeddings_app in Hcases.
    destruct (read_embeddings pre ∅) as [idx|]; [|done].
    cbn [rbind read_embeddings] in Hcases. by rewrite Hline in Hcases. }
  split; [|done]. intros Hblank. by apply Hraise, parse_line_blank.
Qed.

Lemma get_embedding_matrix_malformed_line_witness :
  (every Py.isspace "" = true →
   get_embedding_matrix (get_tokenizer [])
     (@mkWorld Sample.runtime ∅ 0%nat None None None (Some (Sample.glove ++ [""; "the 0"])))
   = (Raise IndexError,
      @mkWorld Sample.runtime ∅ 0%nat None None None (Some (Sample.glove ++ [""; "the 0"]))))
  ∧ (∀ e, @parse_line Sample.runtime "" = Raise e →
       get_embedding_matrix (get_tokenizer [])
         (@mkWorld Sample.runtime ∅ 0%nat None None None (Some (Sample.glove ++ [""; "the 0"])))
       = (Raise e,
          @mkWorld Sample.runtime ∅ 0%nat None None None
            (Some (Sample.glove ++ [""; "the 0"])))).
Proof.
  apply (get_embedding_matrix_malformed_line (get_tokenizer [])
           (@mkWorld Sample.runtime ∅ 0%nat None None None (Some (Sample.glove ++ [""; "the 0"])))
           Sample.glove ["the 0"] "").
  - reflexivity.
  - vm_compute. reflexivity.
Defined.

(** X15. [get_embedding_matrix] reads the tokenizer through the entries 1
    to [VOCAB_SIZE] of [index_word] only: two tokenizers that agree on
    them give the same result and the same world. *)
Theorem get_embedding_matrix_reads_index_word `{Runtime}
    (tokenizer1 tokenizer2 : Keras.Tokenizer) (w : World) :
  (∀ i, 1 ≤ i ≤ VOCAB_SIZE →
        Keras.index_word tokenizer1 !! i = Keras.index_word tokenizer2 !! i) →
  get_embedding_matrix tokenizer1 w = get_embedding_matrix tokenizer2 w.
Proof.
  intros Hsame.
  pose proof (get_embedding_matrix_cases tokenizer1 w) as H1.
  pose proof (get_embedding_matrix_cases tokenizer2 w) as H2.
  destruct (embedding_txt w) as [lines|]; [|congruence].
  destruct (read_embeddings lines ∅) as [idx|e]; [|congruence].
  rewrite H1, H2. apply fill_embedding_index_word.
  apply Forall_forall. intros i Hi%elem_of_seqZ. apply Hsame. lia.
Qed.

Lemma get_embedding_matrix_reads_index_word_witness :
  get_embedding_matrix (get_tokenizer ["the cat"]) Sample.world
  = get_embedding_matrix
      (Keras.mkTokenizer None 7 [] ∅ (Keras.index_word (get_tokenizer ["the cat"])))
      Sample.world.
Proof.
  apply (get_embedding_matrix_reads_index_word (get_tokenizer ["the cat"])
           (Keras.mkTokenizer None 7 [] ∅ (Keras.index_word (get_tokenizer ["the cat"])))
           Sample.world).
  intros i _. reflexivity.
Defined.

(** ** The encoder and the embedding matrix together *)

Lemma padded_sequences_range (corpus texts : list string) :
  Forall (Forall (fun x => 0 ≤ x < VOCAB_SIZE))
         (get_padded_sequences (get_tokenizer corpus) texts).
Proof.
  unfold get_padded_sequences, Keras.pad_sequences, Keras.texts_to_sequences.
  rewrite <- list_fmap_compose. apply Forall_fmap, Forall_forall.
  intros t _. simpl. rewrite pad_sequence_fitted.
  apply Forall_app. split.
  - apply Forall_replicate. unfold VOCAB_SIZE. lia.
  - apply Forall_drop. eapply Forall_impl; [apply text_to_sequence_range|].
    simpl. lia.
Qed.

Lemma get_tokenizer_covers corpus i :
  VOCAB_SIZE ≤ Z.of_nat (size (vocabulary corpus)) →
  1 ≤ i ≤ VOCAB_SIZE → is_Some (Keras.index_word (get_tokenizer corpus) !! i).
Proof.
  intros Hsize Hi. unfold get_tokenizer. rewrite fit_on_texts_index_word.
  fold (get_tokenizer corpus). rewrite get_tokenizer_word_counts. lia.
Qed.

(** X16. With the embedding file read without an error and a tokenizer
    fitted on at least [VOCAB_SIZE] distinct tokens, every integer [x] of a
    padded sequence is the position of a line of the embedding matrix, and
    that line is the one the loop filled for the word of index [x + 1]:
    the line of the word of index [i] is at position [i - 1], and the
    padding value 0 is the position of the line of the word of index 1. *)
Theorem padded_sequences_select_next_word `{Runtime} (corpus texts : list string)
    (w : World) (lines : list string) :
  uniform_spec →
  embedding_txt w = Some lines →
  is_ok (read_embeddings lines ∅) = true →
  VOCAB_SIZE ≤ Z.of_nat (size (vocabulary corpus)) →
  let tokenizer := get_tokenizer corpus in
  ∃ idx embedding,
    read_embeddings lines ∅ = Ok idx
    ∧ (get_embedding_matrix tokenizer w).1 = Ok embedding
    ∧ Forall (Forall (fun x => ∃ row, embedding !! Z.to_nat x = Some row
                                      ∧ row_of tokenizer idx (np_random w) (x + 1) row))
             (get_padded_sequences tokenizer texts).
Proof.
  intros Huniform Htxt Hread Hsize tokenizer.
  destruct (read_embeddings lines ∅) as [idx|] eqn:Hidx; [clear Hread|done].
  destruct (get_embedding_matrix_spec tokenizer w lines idx Huniform Htxt Hidx)
    as (embedding & Hget & Hlen & Hrows).
  { intros i Hi. by apply get_tokenizer_covers. }
  exists idx, embedding. split; [done|]. split; [done|].
  eapply Forall_impl; [apply padded_sequences_range|]. intros line Hline.
  eapply Forall_impl; [exact Hline|]. intros x Hx. cbv beta in Hx.
  destruct (Hrows (x + 1)) as (row & Hrow & Hspec); [lia|].
  exists row. split; [|done]. by replace (Z.to_nat x) with (Z.to_nat (x + 1 - 1)) by lia.
Qed.

Lemma padded_sequences_select_next_word_witness :
  ∃ idx embedding,
    @read_embeddings Sample.runtime Sample.glove ∅ = Ok idx
    ∧ (get_embedding_matrix (get_tokenizer Sample.corpus) Sample.world).1 = Ok embedding
    ∧ Forall (Forall (fun x => ∃ row, embedding !! Z.to_nat x = Some row
                          ∧ @row_of Sample.runtime (get_tokenizer Sample.corpus) idx
                              (np_random Sample.world) (x + 1) row))
             (get_padded_sequences (get_tokenizer Sample.corpus) ["the cat"]).
Proof.
  apply (padded_sequences_select_next_word Sample.corpus ["the cat"] Sample.world Sample.glove).
  - apply sample_uniform_spec.
  - reflexivity.
  - vm_compute. reflexivity.
  - apply sample_corpus_size.
Defined.

(** X17. Under the conditions of C1, for a word whose last line in the
    embedding file has a single coefficient, the line of the matrix is 50
    copies of it; for one whose last line has neither 1 nor 50
    coefficients, the error of the assignment is caught and the line is
    what [np.random.uniform(-1, 1, (EMBEDDING_SIZE))] returned in a state
    that the generator reached from its state at the call. *)
Theorem get_embedding_matrix_odd_lines `{Runtime} (tokenizer : Keras.Tokenizer)
    (w : World) (lines : list string) :
  uniform_spec →
  embedding_txt w = Some lines →
  is_ok (read_embeddings lines ∅) = true →
  (∀ i, 1 ≤ i ≤ VOCAB_SIZE → is_Some (Keras.index_word tokenizer !! i)) →
  ∃ embedding, (get_embedding_matrix tokenizer w).1 = Ok embedding
    ∧ ∀ i word pre line post values v,
        1 ≤ i ≤ VOCAB_SIZE → Keras.index_word tokenizer !! i = Some word →
        lines = pre ++ line :: post →
        Py.split line = word :: values →
        mapM float32_of_string values = Some v →
        Forall (fun l => line_word l ≠ Some word) post →
        ∃ row, embedding !! Z.to_nat (i - 1) = Some row
          ∧ (∀ x, v = [x] → row = replicate 50 x)
          ∧ (length v ≠ 1%nat → length v ≠ 50%nat →
             ∃ s, draws_from (np_random w) s
                  ∧ row = (uniform s (-1) 1 EMBEDDING_SIZE).1).
Proof.
  intros Huniform Htxt Hread Hcover.
  destruct (read_embeddings lines ∅) as [idx|] eqn:Hidx; [clear Hread|done].
  destruct (get_embedding_matrix_spec tokenizer w lines idx Huniform Htxt Hidx Hcover)
    as (embedding & Hget & Hlen & Hrows).
  exists embedding. split; [done|].
  intros i word pre line post values v Hi Hword -> Hsplit Hvalues Hpost.
  pose proof (parse_line_fields line word values v Hsplit Hvalues) as Hline.
  destruct (Hrows i Hi) as (row & Hrow & word' & Hword' & Hspec).
  assert (word' = word) as -> by congruence.
  rewrite (read_embeddings_last _ _ _ _ _ _ _ Hidx Hline Hpost) in Hspec.
  exists row. split; [done|]. cbn [mbind option_bind] in Hspec. split.
  - intros x ->. by rewrite Hspec.
  - intros H1 H50. unfold broadcast in Hspec.
    destruct (Nat.eqb_spec (length v) 50) as [|_]; [done|].
    destruct v as [|x [|y v]]; done.
Qed.

Lemma get_embedding_matrix_odd_lines_witness :
  ∃ embedding,
    (get_embedding_matrix (get_tokenizer Sample.corpus) Sample.world_odd).1 = Ok embedding
    ∧ embedding !! 0%nat = Some (replicate 50 1%float)
    ∧ embedding !! 1%nat = Some (replicate 50 (-0.5)%float).
Proof.
  assert (Hread : is_ok (@read_embeddings Sample.runtime Sample.glove_odd ∅) = true).
  { vm_compute. reflexivity. }
  destruct (get_embedding_matrix_odd_lines (get_tokenizer Sample.corpus) Sample.world_odd
              Sample.glove_odd sample_uniform_spec eq_refl Hread sample_tokenizer_covers)
    as (embedding & Hget & Hrows).
  exists embedding. split; [done|]. split.
  - destruct (Hrows 1 "the"%string [] "the 1"%string ["cat 1 1"%string]
                ["1"%string] [1%float]) as (row & Hrow & Hone & _);
      [unfold VOCAB_SIZE; lia | by apply sample_index_word | reflexivity
      | vm_compute; reflexivity | reflexivity
      | repeat constructor; vm_compute; discriminate |].
    change (Z.to_nat (1 - 1)) with 0%nat in Hrow. rewrite Hrow. f_equal.
    by apply Hone.
  - destruct (Hrows 2 "cat"%string ["the 1"%string] "cat 1 1"%string []
                ["1"%string; "1"%string] [1%float; 1%float]) as (row & Hrow & _ & Hodd);
      [unfold VOCAB_SIZE; lia | by apply sample_index_word | reflexivity
      | vm_compute; reflexivity | reflexivity | constructor |].
    change (Z.to_nat (2 - 1)) with 1%nat in Hrow. rewrite Hrow. f_equal.
    destruct Hodd as (s & _ & ->); [simpl; lia | simpl; lia |]. reflexivity.
Defined.

(** ** The batches of an inference pass *)





(** ** Stemming *)

Lemma split_lstrip s : Py.split (Py.lstrip s) = Py.split s.
Proof.
  induction s as [|c s IH]; [done|]. cbn [Py.lstrip].
  destruct (Py.isspace c) eqn:Hc; [|done].
  rewrite IH. unfold Py.split. cbn [Py.pieces]. by rewrite Hc.
Qed.

Lemma pieces_cons sep c s :
  Py.pieces sep (String c s)
  = if sep c then EmptyString :: Py.pieces sep s
    else String c (hd EmptyString (Py.pieces sep s)) :: tail (Py.pieces sep s).
Proof.
  cbn [Py.pieces]. destruct (sep c); [done|].
  pose proof (pieces_not_nil sep s). by destruct (Py.pieces sep s).
Qed.

Lemma pieces_hd_tail sep s :
  Py.pieces sep s = hd EmptyString (Py.pieces sep s) :: tail (Py.pieces sep s).
Proof. pose proof (pieces_not_nil sep s). by destruct (Py.pieces sep s). Qed.

Lemma pieces_rstrip s :
  hd EmptyString (Py.pieces Py.isspace (Py.rstrip s)) = hd EmptyString (Py.pieces Py.isspace s)
  ∧ List.filter Py.nonempty (tail (Py.pieces Py.isspace (Py.rstrip s)))
    = List.filter Py.nonempty (tail (Py.pieces Py.isspace s)).
Proof.
  induction s as [|c s [IHhd IHtl]]; [done|].
  assert (Hall : List.filter Py.nonempty (Py.pieces Py.isspace (Py.rstrip s))
                 = List.filter Py.nonempty (Py.pieces Py.isspace s)).
  { rewrite (pieces_hd_tail _ (Py.rstrip s)), (pieces_hd_tail _ s).
    cbn [List.filter]. by rewrite IHhd, IHtl. }
  cbn [Py.rstrip]. destruct (Py.rstrip s) as [|d r] eqn:Hr.
  - rewrite (pieces_cons _ c s). cbn in IHhd, IHtl, Hall.
    destruct (Py.isspace c) eqn:Hc.
    + cbn. split; [done|]. by rewrite <- Hall.
    + cbn. rewrite Hc. cbn. by rewrite <- IHhd, <- IHtl.
  - rewrite (pieces_cons _ c s), (pieces_cons _ c (String d r)).
    destruct (Py.isspace c); cbn [hd tail].
    + by rewrite Hall.
    + by rewrite IHhd, IHtl.
Qed.

Lemma split_rstrip s : Py.split (Py.rstrip s) = Py.split s.
Proof.
  unfold Py.split. destruct (pieces_rstrip s) as [Hhd Htl].
  rewrite (pieces_hd_tail _ (Py.rstrip s)), (pieces_hd_tail _ s).
  cbn [List.filter]. by rewrite Hhd, Htl.
Qed.

Lemma split_strip s : Py.split (Py.strip s) = Py.split s.
Proof. unfold Py.strip. by rewrite split_rstrip, split_lstrip. Qed.

(** X19. With [stem_words] set, [text_to_wordlist] returns the stems of
    the words of what it returns without it, joined by spaces and
    stripped. *)
Theorem text_to_wordlist_stems `{Runtime} (world : World) (text : PyObj)
    (remove_stopwords : bool) (s : string) :
  text_to_wordlist world text remove_stopwords false = Ok s →
  text_to_wordlist world text remove_stopwords true
  = Ok (Py.strip (Py.join " " (stem <$> Py.split s))).
Proof.
  unfold text_to_wordlist.
  destruct (if remove_stopwords then _ else _) as [ws|]; [|done].
  cbn [mbind result_mbind rbind]. intros <-%Ok_inj. by rewrite split_strip.
Qed.

Lemma text_to_wordlist_stems_witness :
  text_to_wordlist Sample.world (PyStr "The cats sat") false true
  = Ok (Py.strip (Py.join " " (@stem Sample.runtime <$> Py.split "the cats sat"))).
Proof.
  apply (text_to_wordlist_stems Sample.world (PyStr "The cats sat") false "the cats sat").
  vm_compute. reflexivity.
Defined.

(** ** Reading a padded sequence back *)

Lemma omap_Forall2 {A B} (f : A → option B) (R : A → B → Prop) (l : list A) :
  Forall (fun a => ∃ b, f a = Some b ∧ R a b) l → Forall2 R l (omap f l).
Proof.
  induction 1 as [|a l (b & Hb & HR) _ IH]; [constructor|].
  cbn. rewrite Hb. by constructor.
Qed.

Lemma omap_inverse {A B} (g : B → option A) (l : list A) (k : list B) :
  Forall2 (fun a b => g b = Some a) l k → omap g k = l.
Proof.
  induction 1 as [|a b l k Hb _ IH]; [done|]. cbn. by rewrite Hb, IH.
Qed.

Lemma omap_replicate_None {A B} (g : B → option A) (n : nat) (b : B) :
  g b = None → omap g (replicate n b) = [].
Proof. intros Hb. induction n as [|n IH]; [done|]. cbn. by rewrite Hb. Qed.

(** With fewer than [VOCAB_SIZE] words, every word of the corpus is
    encoded, by the index that [index_word] sends back to it. *)
Lemma text_to_sequence_known (corpus : list string) (text : string) :
  Z.of_nat (size (vocabulary corpus)) < VOCAB_SIZE →
  text ∈ corpus →
  Forall2 (fun w i => Keras.index_word (get_tokenizer corpus) !! i = Some w)
          (Keras.text_to_word_sequence text)
          (Keras.text_to_sequence (get_tokenizer corpus) text).
Proof.
  intros Hsize Htext. unfold Keras.text_to_sequence. apply omap_Forall2.
  apply Forall_forall. intros w Hw.
  assert (Hvoc : w ∈ vocabulary corpus) by (apply vocabulary_elem; eauto).
  destruct (get_tokenizer_sorted_voc corpus) as [Hnd Hwords].
  apply Hwords, list_elem_of_lookup in Hvoc as [k Hk].
  assert (Hindex : Keras.word_index (get_tokenizer corpus) !! w = Some (Z.of_nat k + 1)).
  { apply get_tokenizer_word_index. split; [lia|].
    by replace (Z.to_nat (Z.of_nat k + 1 - 1)) with k by lia. }
  exists (Z.of_nat k + 1). rewrite Hindex. split.
  - apply fit_on_texts_word_index in Hindex. fold (get_tokenizer corpus) in Hindex.
    rewrite get_tokenizer_word_counts in Hindex.
    assert (Hcap : Keras.capped (Keras.num_words (get_tokenizer corpus)) (Z.of_nat k + 1)
                   = false).
    { cbn. unfold VOCAB_SIZE in *. apply Z.leb_gt. lia. }
    by rewrite Hcap.
  - apply get_tokenizer_index_word. split; [lia|].
    by replace (Z.to_nat (Z.of_nat k + 1 - 1)) with k by lia.
Qed.

(** X20. For a corpus of fewer than [VOCAB_SIZE] distinct tokens and a
    text of the corpus, reading the padded sequence of the text back
    through [index_word] gives the tokens of the text, cut to the last 50
    when there are more: the zeros of the padding stand for no word. *)
Theorem get_padded_sequences_decode (corpus : list string) (text : string) :
  Z.of_nat (size (vocabulary corpus)) < VOCAB_SIZE →
  text ∈ corpus →
  let tokenizer := get_tokenizer corpus in
  let tokens := Keras.text_to_word_sequence text in
  ∃ row, get_padded_sequences tokenizer [text] = [row]
    ∧ omap (fun i => Keras.index_word tokenizer !! i) row
      = drop (length tokens - 50) tokens.
Proof.
  intros Hsize Htext tokenizer tokens. eexists. split; [reflexivity|].
  pose proof (text_to_sequence_known corpus text Hsize Htext) as Hknown.
  fold tokenizer tokens in Hknown.
  unfold tokenizer at 2. rewrite pad_sequence_fitted. fold tokenizer.
  rewrite omap_app, omap_replicate_None, app_nil_l.
  - rewrite <- (Forall2_length _ _ _ Hknown).
    apply omap_inverse. by apply Forall2_drop.
  - apply eq_None_not_Some. unfold tokenizer, get_tokenizer.
    rewrite fit_on_texts_index_word. lia.
Qed.

Lemma get_padded_sequences_decode_witness :
  ∃ row, get_padded_sequences (get_tokenizer ["the cat sat"; "the cat"]) ["the cat"] = [row]
    ∧ omap (fun i => Keras.index_word (get_tokenizer ["the cat sat"; "the cat"]) !! i) row
      = drop (length (Keras.text_to_word_sequence "the cat") - 50)
             (Keras.text_to_word_sequence "the cat").
Proof.
  apply (get_padded_sequences_decode ["the cat sat"; "the cat"] "the cat").
  - vm_compute. reflexivity.
  - right. left.
Defined.

(** ** The arrays of a first run *)

Lemma take_rows_Forall {A} (P : A → Prop) (a : list A) (idx : list nat) :
  Forall P a → Forall P (Sklearn.take_rows a idx).
Proof.
  intros Ha. apply Forall_forall. intros x Hx.
  apply list_elem_of_omap in Hx as (i & _ & Hi).
  rewrite Forall_forall in Ha. apply Ha. by eapply list_elem_of_lookup_2.
Qed.

Lemma padded_sequences_rows (corpus texts : list string) :
  Forall (fun row => length row = 50%nat ∧ Forall (fun x => 0 ≤ x < VOCAB_SIZE) row)
         (get_padded_sequences (get_tokenizer corpus) texts).
Proof.
  apply Forall_and. split; [|apply padded_sequences_range].
  unfold get_padded_sequences, Keras.pad_sequences.
  apply Forall_fmap, Forall_forall. intros s _. apply pad_sequence_length.
Qed.

(** X21. Every line of the three arrays that a first call of [get_data]
    returns (training, test and inference) has 50 entries, each at least 0
    and less than [VOCAB_SIZE]. *)
Theorem get_data_arrays `{Runtime} (params : Params) (w w1 : World)
    (train_X test_X inf_text : list (list Z)) (train_y test_y : list Z)
    (tokenizer : Keras.Tokenizer) :
  Os.path_exists w (data_dir params) = false →
  get_data params w = (Ok (train_X, train_y, test_X, test_y, inf_text, tokenizer), w1) →
  Forall (fun row => length row = 50%nat ∧ Forall (fun x => 0 ≤ x < VOCAB_SIZE) row)
         (train_X ++ test_X ++ inf_text).
Proof.
  intros Hdir Hget.
  destruct (get_data_fresh params w w1 _ Hdir Hget) as (df & inf_df & _ & _ & _ & Ht).
  unfold Sklearn.split_with in Ht. injection Ht as -> _ -> _ -> _.
  rewrite !Forall_app. split; [|split].
  - apply take_rows_Forall, padded_sequences_rows.
  - apply take_rows_Forall, padded_sequences_rows.
  - apply padded_sequences_rows.
Qed.

Lemma get_data_arrays_witness :
  match get_data Sample.params Sample.world with
  | (Ok (train_X, _, test_X, _, inf_text, _), _) =>
      Forall (fun row => length row = 50%nat ∧ Forall (fun x => 0 ≤ x < VOCAB_SIZE) row)
             (train_X ++ test_X ++ inf_text)
  | (Raise _, _) => False
  end.
Proof.
  destruct (get_data Sample.params Sample.world)
    as [[[[[[[train_X train_y] test_X] test_y] inf_text] tokenizer]|e] w1] eqn:Hfirst.
  - exact (get_data_arrays Sample.params Sample.world w1 train_X test_X inf_text
             train_y test_y tokenizer eq_refl Hfirst).
  - vm_compute in Hfirst. discriminate Hfirst.
Defined.
